(** * Lingu — spaced-repetition scheduler and progress data model

    A shallow embedding of [src/app/page.tsx]: the card model, the SRS
    scheduler [schedule], the language-pack loader, the review ledger inside
    [handleReview] and the backup import, together with the properties the
    specification states about them.

    JavaScript numbers are IEEE 754 binary64 values; they are modelled by
    Rocq's primitive [float] type, whose operations are exactly the binary64
    ones.  [Date.now()], [todayKey()] and [uid()] read the environment; their
    results are explicit inputs of the functions that call them.  Where a
    property depends on which object a reference points to - the card passed
    to [schedule], the per-language statistics the updater of [handleReview]
    writes to - the objects live in an explicit store.  [exportData] and
    [importData] go through [JSON.stringify] and [JSON.parse], which are
    builtins of the runtime; they are modelled after ECMA-262 on the syntax
    tree of the text.  Rendering, audio and the download animation do not
    touch the state and are left out. *)

From Stdlib Require Import ZArith Lia Bool List.
From Stdlib Require Import Floats.
From stdpp Require Import base option list strings gmap.

Set Warnings "-inexact-float,-register-all".
Local Open Scope float_scope.

(** ** JavaScript number builtins *)

Module JS.

(** [Math.max(a, b)]: NaN if either argument is NaN, otherwise the larger
    one, with [+0] larger than [-0]. *)
Definition Math_max (a b : float) : float :=
  if is_nan a || is_nan b then nan
  else if a <? b then b
  else if b <? a then a
  else if get_sign a then b else a.

(** [Math.min(a, b)]: NaN if either argument is NaN, otherwise the smaller
    one, with [-0] smaller than [+0]. *)
Definition Math_min (a b : float) : float :=
  if is_nan a || is_nan b then nan
  else if a <? b then a
  else if b <? a then b
  else if get_sign a then a else b.

(** [Math.round(x)]: the integral number closest to [x], ties going towards
    [+∞]; NaN, infinities, zeros and integral values are returned as they
    are, and a result of zero keeps the sign of [x].  For a finite
    [x = ±m·2^e] with [e < 0] the integer is [⌊x + 1/2⌋], computed exactly. *)
Definition Math_round (x : float) : float :=
  match Prim2SF x with
  | S754_finite s m e =>
      if (0 <=? e)%Z then x
      else
        let k := (- e)%Z in
        let n := ((2 * cond_Zopp s (Z.pos m) + 2 ^ k) / 2 ^ (k + 1))%Z in
        if (n =? 0)%Z then (if s then neg_zero else zero)
        else SF2Prim (binary_normalize prec emax n 0 false)
  | _ => x
  end.

End JS.

(** ** Data model *)

Inductive Lang := EN | ES | FR | RU.
Inductive Level := BEGINNER | INTERMEDIATE | ADVANCED.
Inductive CardKind := vocab | sentence.
Inductive NativeLang := DE.

Global Instance Lang_eq_dec : EqDecision Lang.
Proof. solve_decision. Defined.

Module Card.
Record t := mk {
  id : string;
  targetLang : Lang;
  kind : CardKind;
  front : string;
  back : string;
  example : option string;
  exampleTranslation : option string;
  due : float;
  intervalDays : float;
  ease : float;
  lapses : float;
  lastReviewed : option float
}.
End Card.

Module DailyStat.
Record t := mk { reviewed : float; correct : float; wrong : float; minutes : float }.
End DailyStat.

Module Profile.
Record t := mk {
  username : string;
  nativeLang : NativeLang;
  targetLang : Lang;
  level : Level;
  dailyGoal : float;
  xp : float;
  streak : float;
  bestStreak : float;
  lastActiveDay : string;
  createdAt : float
}.
End Profile.

Module Achievement.
Record t := mk {
  id : string;
  title : string;
  desc : string;
  icon : string;
  unlockedAt : option float
}.
End Achievement.

Module AppData.
Record t := mk {
  cards : list Card.t;
  profile : Profile.t;
  achievements : list Achievement.t;
  dailyStatsByLang : Lang -> gmap string DailyStat.t
}.
End AppData.

(** ** Helpers *)

Definition clamp (n a b : float) : float := JS.Math_max a (JS.Math_min b n).

(** ** SRS logic *)

(** [schedule(card, correct)]; [now] is the value [Date.now()] returns. *)
Definition schedule (now : float) (card : Card.t) (correct : bool) : Card.t :=
  let ease := Card.ease card in
  let intervalDays := Card.intervalDays card in
  let ease :=
    if correct then clamp (ease + 0.1) 1.3 2.8 else clamp (ease - 0.2) 1.3 2.8 in
  let intervalDays :=
    if correct
    then (if intervalDays =? 0 then 1 else JS.Math_round (intervalDays * ease))
    else 0 in
  {| Card.id := Card.id card;
     Card.targetLang := Card.targetLang card;
     Card.kind := Card.kind card;
     Card.front := Card.front card;
     Card.back := Card.back card;
     Card.example := Card.example card;
     Card.exampleTranslation := Card.exampleTranslation card;
     Card.due := now + (if correct then intervalDays else 0.1) * 86400000;
     Card.intervalDays := intervalDays;
     Card.ease := ease;
     Card.lapses := if correct then Card.lapses card else Card.lapses card + 1;
     Card.lastReviewed := Some now |}.

(** The state the first effect of [Page] installs when nothing is stored;
    [today] is the value of [todayKey()] and [now] that of [Date.now()]. *)
Definition initialData (today : string) (now : float) : AppData.t :=
  {| AppData.cards := [];
     AppData.profile :=
       Profile.mk "User" DE EN BEGINNER 10 0 0 0 today now;
     AppData.achievements :=
       [Achievement.mk "welcome" "Willkommen" "Erste Sprache geladen" "🚀" None];
     AppData.dailyStatsByLang := fun _ => ∅ |}.

(** ** Language packs *)

Module PackEntry.
Record t := mk { de : string; x : string }.
End PackEntry.

Module Pack.
Record t := mk { vocab : list PackEntry.t; sentences : list PackEntry.t }.
End Pack.

Definition PACKS_API (lang : Lang) : Pack.t :=
  match lang with
  | EN => Pack.mk
      [PackEntry.mk "laufen" "to run"; PackEntry.mk "essen" "to eat"; PackEntry.mk "Zeit" "time"]
      [PackEntry.mk "Ich habe Zeit." "I have time."]
  | ES => Pack.mk
      [PackEntry.mk "Hallo" "hola"; PackEntry.mk "bitte" "por favor"; PackEntry.mk "danke" "gracias"]
      [PackEntry.mk "Gern geschehen." "De nada."]
  | FR => Pack.mk
      [PackEntry.mk "Wasser" "eau"; PackEntry.mk "Brot" "pain"]
      [PackEntry.mk "Ein Baguette, bitte." "Une baguette, s'il vous plaît."]
  | RU => Pack.mk
      [PackEntry.mk "Haus" "дом"; PackEntry.mk "Freund" "друг"]
      [PackEntry.mk "Wie geht es dir?" "Как дела?"]
  end.

(** The environment a pack load reads: the result of the [i]-th call of
    [uid()] and of the [i]-th call of [Date.now()] made while the candidate
    cards are built (one call of each per candidate, in order). *)
Module Env.
Record t := mk { uid : nat -> string; Date_now : nat -> float }.
End Env.

(** The string a [Lang] value is at run time. *)
Definition Lang_str (l : Lang) : string :=
  match l with EN => "EN" | ES => "ES" | FR => "FR" | RU => "RU" end.

(** The template literal [`${c.targetLang}-${c.front}`]. *)
Definition cardKey (c : Card.t) : string :=
  Lang_str (Card.targetLang c) +:+ "-" +:+ Card.front c.

(** One candidate card, as the two [map] callbacks build it; [i] is the
    number of candidates built before it. *)
Definition candidate (env : Env.t) (lang : Lang) (k : CardKind) (i : nat)
    (v : PackEntry.t) : Card.t :=
  {| Card.id := Env.uid env i;
     Card.targetLang := lang;
     Card.kind := k;
     Card.front := PackEntry.de v;
     Card.back := PackEntry.x v;
     Card.example := None;
     Card.exampleTranslation := None;
     Card.due := Env.Date_now env i;
     Card.intervalDays := 0;
     Card.ease := 2.0;
     Card.lapses := 0;
     Card.lastReviewed := None |}.

Definition newCards (env : Env.t) (lang : Lang) (V S : list PackEntry.t) : list Card.t :=
  imap (candidate env lang vocab) V
  ++ imap (fun i => candidate env lang sentence (length V + i)) S.

(** The candidates that survive the duplicate filter: those whose key is not
    in the set of keys of the existing cards. *)
Definition loadPack (existingCards : list Card.t) (env : Env.t) (lang : Lang)
    (V S : list PackEntry.t) : list Card.t :=
  let existing : gset string := list_to_set (cardKey <$> existingCards) in
  filter (fun c => cardKey c ∉ existing) (newCards env lang V S).

Definition setTargetLang (p : Profile.t) (lang : Lang) : Profile.t :=
  {| Profile.username := Profile.username p;
     Profile.nativeLang := Profile.nativeLang p;
     Profile.targetLang := lang;
     Profile.level := Profile.level p;
     Profile.dailyGoal := Profile.dailyGoal p;
     Profile.xp := Profile.xp p;
     Profile.streak := Profile.streak p;
     Profile.bestStreak := Profile.bestStreak p;
     Profile.lastActiveDay := Profile.lastActiveDay p;
     Profile.createdAt := Profile.createdAt p |}.

(** [downloadLanguagePack(lang)] as a transition of the [data] state
    ([None] is the [null] state before the initial load); the simulated
    download delay and its progress bar do not touch [data]. *)
Definition downloadLanguagePack (env : Env.t) (lang : Lang)
    (data : option AppData.t) : option AppData.t :=
  let pack := PACKS_API lang in
  match data with
  | None => None
  | Some prev =>
      let filtered :=
        loadPack (AppData.cards prev) env lang (Pack.vocab pack) (Pack.sentences pack) in
      Some {| AppData.cards := AppData.cards prev ++ filtered;
              AppData.profile := setTargetLang (AppData.profile prev) lang;
              AppData.achievements := AppData.achievements prev;
              AppData.dailyStatsByLang := AppData.dailyStatsByLang prev |}
  end.

(** ** Review ledger *)

Definition zeroStat : DailyStat.t := DailyStat.mk 0 0 0 0.

(** [{ ...dayStat, reviewed: dayStat.reviewed + 1,
       correct: dayStat.correct + (correct ? 1 : 0) }]. *)
Definition bumpStat (correct : bool) (dayStat : DailyStat.t) : DailyStat.t :=
  {| DailyStat.reviewed := DailyStat.reviewed dayStat + 1;
     DailyStat.correct := DailyStat.correct dayStat + (if correct then 1 else 0);
     DailyStat.wrong := DailyStat.wrong dayStat;
     DailyStat.minutes := DailyStat.minutes dayStat |}.

Definition addXp (p : Profile.t) (correct : bool) : Profile.t :=
  {| Profile.username := Profile.username p;
     Profile.nativeLang := Profile.nativeLang p;
     Profile.targetLang := Profile.targetLang p;
     Profile.level := Profile.level p;
     Profile.dailyGoal := Profile.dailyGoal p;
     Profile.xp := Profile.xp p + (if correct then 10 else 2);
     Profile.streak := Profile.streak p;
     Profile.bestStreak := Profile.bestStreak p;
     Profile.lastActiveDay := Profile.lastActiveDay p;
     Profile.createdAt := Profile.createdAt p |}.

(** The state updater [handleReview] passes to [setData], as a function from
    the value of [prev] to the value of the state it returns when it runs
    once: [lang], [today] and [updatedCards] are the values captured by the
    closure.  The write the updater makes into the object it shares with
    [prev] is in [Ledger.updater] below, of which this is the value of one
    run. *)
Definition recordReview (lang : Lang) (today : string) (correct : bool)
    (updatedCards : list Card.t) (prev : AppData.t) : AppData.t :=
  let stats := AppData.dailyStatsByLang prev in
  let dayStat := default zeroStat (stats lang !! today) in
  let stats' := fun l =>
    if decide (l = lang) then <[today := bumpStat correct dayStat]> (stats l)
    else stats l in
  {| AppData.cards := updatedCards;
     AppData.profile := addXp (AppData.profile prev) correct;
     AppData.achievements := AppData.achievements prev;
     AppData.dailyStatsByLang := stats' |}.

(** The cards of the current course that are due at [now], and the first of
    them ([dueCards[0]], [undefined] when there is none), for a render during
    which the clock, of millisecond resolution, shows [now] throughout;
    [dueCardsAt] below is the filter with one reading per callback. *)
Definition dueCards (now : float) (data : AppData.t) : list Card.t :=
  let currentLang := Profile.targetLang (AppData.profile data) in
  filter (fun c => Card.targetLang c = currentLang ∧ (Card.due c <=? now) = true)
         (AppData.cards data).

Definition nextCard (now : float) (data : AppData.t) : option Card.t :=
  head (dueCards now data).

(** [handleReview(correct)]: [rendered] is the clock reading of the render
    that chose [nextCard], [now] the reading [schedule] takes, [today] the
    value of [todayKey()]. *)
Definition handleReview (rendered now : float) (today : string) (correct : bool)
    (data : option AppData.t) : option AppData.t :=
  match data with
  | None => None
  | Some d =>
      match nextCard rendered d with
      | None => Some d
      | Some next =>
          let updatedCards :=
            (fun c => if String.eqb (Card.id c) (Card.id next)
                      then schedule now c correct else c) <$> AppData.cards d in
          let lang := Profile.targetLang (AppData.profile d) in
          Some (recordReview lang today correct updatedCards d)
      end
  end.

(** ** Backup import *)

(** The values [JSON.parse] produces; an object is the list of its
    properties, in the order of their creation (the keys of the state are
    field names, language codes and ISO dates, none of them an array index,
    which an object would list first). *)
Inductive JSON :=
  | JNull
  | JBool (b : bool)
  | JNumber (n : float)
  | JString (s : string)
  | JArray (items : list JSON)
  | JObject (fields : list (string * JSON)).

(** The two messages [importData] can show. *)
Inductive Alert := BackupLoaded | ImportError.

(** The [onload] handler of [importData].  [setData(imported)] stores
    whatever [JSON.parse] returned, so the state here is a [JSON] value.
    [parsed] is the outcome of [JSON.parse] on the text of the file: [Some v]
    when it returns [v], [None] when it throws. *)
Definition importData_onload (parsed : option JSON) (data : JSON) : JSON * Alert :=
  match parsed with
  | Some imported => (imported, BackupLoaded)
  | None => (data, ImportError)
  end.

(** [importData]: without a selected file nothing happens. *)
Definition importData (file : option (option JSON)) (data : JSON) : JSON * option Alert :=
  match file with
  | None => (data, None)
  | Some parsed => let '(d, a) := importData_onload parsed data in (d, Some a)
  end.

(** ** Order on numbers and validity of cards *)

(** [x <= y] on JavaScript numbers (false as soon as one side is NaN). *)
Definition fle (x y : float) : Prop := (x <=? y) = true.

(** A number that is neither NaN, nor an infinity, nor a zero. *)
Definition finite64 (y : float) : Prop := exists s m e, Prim2SF y = S754_finite s m e.

(** The lexicographic comparison of (exponent, mantissa) pairs that
    [SFcompare] makes on two finite numbers of the same sign. *)
Definition lexcmp (e1 : Z) (m1 : positive) (e2 : Z) (m2 : positive) : comparison :=
  match Z.compare e1 e2 with
  | Lt => Lt | Gt => Gt | Eq => Pos.compare m1 m2
  end.

(** The card invariant of the data model: ease within [1.3, 2.8]. *)
Definition ease_ok (e : float) : Prop := fle 1.3 e /\ fle e 2.8.

Definition well_formed (c : Card.t) : Prop :=
  ease_ok (Card.ease c) /\ fle 0 (Card.intervalDays c).

(** A review is its outcome and the clock reading of the call; a review
    sequence is applied by iterating [schedule]. *)
Fixpoint review_all (c : Card.t) (rs : list (bool * float)) : Card.t :=
  match rs with
  | [] => c
  | (correct, now) :: rs' => review_all (schedule now c correct) rs'
  end.

(** The eases a card goes through along a review sequence, the initial one
    first. *)
Fixpoint ease_trace (c : Card.t) (rs : list (bool * float)) : list float :=
  Card.ease c ::
  match rs with
  | [] => []
  | (correct, now) :: rs' => ease_trace (schedule now c correct) rs'
  end.

(** The clamp of the specification, in its own words: inclusive on both
    bounds, a value within them is kept. *)
Definition spec_clamp (n lo hi : float) : float :=
  if n <? lo then lo else if hi <? n then hi else n.

(** What the specification says a correct review makes of [c]. *)
Definition correct_review_spec (now : float) (c c' : Card.t) : Prop :=
  Card.ease c' = spec_clamp (Card.ease c + 0.1) 1.3 2.8 /\
  Card.intervalDays c' =
    (if Card.intervalDays c =? 0 then 1
     else JS.Math_round (Card.intervalDays c * Card.ease c')) /\
  Card.due c' = now + Card.intervalDays c' * 86400000 /\
  Card.lapses c' = Card.lapses c /\
  Card.lastReviewed c' = Some now.

(** What the specification says an incorrect review makes of [c]. *)
Definition incorrect_review_spec (now : float) (c c' : Card.t) : Prop :=
  Card.ease c' = spec_clamp (Card.ease c - 0.2) 1.3 2.8 /\
  Card.intervalDays c' = 0 /\
  Card.due c' = now + 0.1 * 86400000 /\
  Card.lapses c' = Card.lapses c + 1 /\
  Card.lastReviewed c' = Some now.

(** A card as the pack loader creates it. *)
Definition freshCard : Card.t :=
  Card.mk "c1" EN vocab "laufen" "to run" None None 0 0 2.0 0 None.

(** The card of the last scheduler scenario of the specification: ease at the
    lower bound, interval 5. *)
Definition hardCard : Card.t :=
  Card.mk "c3" EN vocab "Zeit" "time" None None 0 5 1.3 2 None.

(** The key of the candidate built from a pack entry: it depends on the
    language and the source text only, not on the id and the clock reading
    the candidate was given. *)
Definition entryKey (lang : Lang) (v : PackEntry.t) : string :=
  Lang_str lang +:+ "-" +:+ PackEntry.de v.

(** The scheduling state of a card the loader has just built: due at the
    clock reading [now] taken when it was built, interval 0, ease 2.0, no
    lapse. *)
Definition fresh_state (now : float) (c : Card.t) : Prop :=
  Card.due c = now /\ Card.intervalDays c = 0 /\ Card.ease c = 2.0 /\
  Card.lapses c = 0.

(** ** The object store *)

(** Card objects live in a store and are passed by reference, and the clock
    is part of the world the code runs in.  A function of the source is a
    program on this world: it can read the clock, read a property of an
    object, assign to a property of an object, and allocate the object of an
    object literal.  A program fails on a reference that holds no object. *)
Module Store.

Record World := mk { heap : gmap positive Card.t; clock : float }.

Definition M (A : Type) : Type := World -> option (A * World).

Definition bind {A B} (m : M A) (k : A -> M B) : M B :=
  fun w => match m w with Some (a, w') => k a w' | None => None end.

(** [Date.now()]. *)
Definition Date_now : M float := fun w => Some (clock w, w).

(** [obj.p], the property [p] of the object [r] refers to. *)
Definition get {A} (r : positive) (p : Card.t -> A) : M A :=
  fun w => match heap w !! r with Some c => Some (p c, w) | None => None end.

(** [obj.p = v], given by what the assignment makes of the object. *)
Definition assign (r : positive) (f : Card.t -> Card.t) : M unit :=
  fun w =>
    match heap w !! r with
    | Some c => Some (tt, mk (<[r := f c]> (heap w)) (clock w))
    | None => None
    end.

(** An object literal: a new object, and the reference to it. *)
Definition new (c : Card.t) : M positive :=
  fun w =>
    let r := fresh (dom (heap w)) in
    Some (r, mk (<[r := c]> (heap w)) (clock w)).

End Store.

Notation "'let*' x := m 'in' k" := (Store.bind m (fun x => k))
  (at level 10, x name, m at level 200, k at level 200, only parsing).

(** The body of [schedule(card, correct)], statement by statement, on the
    reference [card]. *)
Definition scheduleM (card : positive) (correct : bool) : Store.M positive :=
  let* now := Store.Date_now in
  let* ease := Store.get card Card.ease in
  let* intervalDays := Store.get card Card.intervalDays in
  let ease :=
    if correct then clamp (ease + 0.1) 1.3 2.8 else clamp (ease - 0.2) 1.3 2.8 in
  let intervalDays :=
    if correct
    then (if intervalDays =? 0 then 1 else JS.Math_round (intervalDays * ease))
    else 0 in
  let* spread := Store.get card (fun c => c) in
  let* lapses := Store.get card Card.lapses in
  Store.new
    {| Card.id := Card.id spread;
       Card.targetLang := Card.targetLang spread;
       Card.kind := Card.kind spread;
       Card.front := Card.front spread;
       Card.back := Card.back spread;
       Card.example := Card.example spread;
       Card.exampleTranslation := Card.exampleTranslation spread;
       Card.due := now + (if correct then intervalDays else 0.1) * 86400000;
       Card.intervalDays := intervalDays;
       Card.ease := ease;
       Card.lapses := if correct then lapses else lapses + 1;
       Card.lastReviewed := Some now |}.

(** ** The ledger on the object store *)

(** [dailyStatsByLang] holds, per language, a reference to the object that
    maps the days of that language to their DailyStat.  The updater of
    [handleReview] copies the outer object only ([{ ...prev.dailyStatsByLang
    }] holds the same references) and then assigns
    [stats[lang][today] = ...], which writes into the object [prev] refers
    to as well. *)
Module Ledger.

Record State := mk {
  cards : list Card.t;
  profile : Profile.t;
  achievements : list Achievement.t;
  dailyStatsByLang : Lang -> positive
}.

(** The updater passed to [setData], on the store of the per-language
    objects; a language without object makes [stats[lang][today]] throw. *)
Definition updater (lang : Lang) (today : string) (correct : bool)
    (updatedCards : list Card.t) (prev : State)
    (h : gmap positive (gmap string DailyStat.t))
    : option (State * gmap positive (gmap string DailyStat.t)) :=
  let stats := dailyStatsByLang prev in
  match h !! stats lang with
  | None => None
  | Some days =>
      let dayStat := default zeroStat (days !! today) in
      let h' := <[stats lang := <[today := bumpStat correct dayStat]> days]> h in
      Some ({| cards := updatedCards;
               profile := addXp (profile prev) correct;
               achievements := achievements prev;
               dailyStatsByLang := stats |}, h')
  end.


(** The value a state has in a store. *)
Definition view (h : gmap positive (gmap string DailyStat.t)) (s : State) : AppData.t :=
  {| AppData.cards := cards s;
     AppData.profile := profile s;
     AppData.achievements := achievements s;
     AppData.dailyStatsByLang := fun l => default ∅ (h !! dailyStatsByLang s l) |}.

(** [setData(updater)]: React runs the updater on the current state; in
    Strict Mode it runs it a second time on the same state and keeps the
    result of one of the two runs (here of the second). *)
Definition setData (strict : bool)
    (u : State -> gmap positive (gmap string DailyStat.t) ->
         option (State * gmap positive (gmap string DailyStat.t)))
    (prev : State) (h : gmap positive (gmap string DailyStat.t))
    : option (State * gmap positive (gmap string DailyStat.t)) :=
  match u prev h with
  | None => None
  | Some (s1, h1) => if strict then u prev h1 else Some (s1, h1)
  end.

(** A session of reviews of one language on one day, each with the card
    list [handleReview] computed for it. *)
Fixpoint record_all (strict : bool) (lang : Lang) (today : string)
    (rs : list (bool * list Card.t)) (s : State)
    (h : gmap positive (gmap string DailyStat.t))
    : option (State * gmap positive (gmap string DailyStat.t)) :=
  match rs with
  | [] => Some (s, h)
  | (correct, updatedCards) :: rs' =>
      match setData strict (updater lang today correct updatedCards) s h with
      | Some (s', h') => record_all strict lang today rs' s' h'
      | None => None
      end
  end.

End Ledger.



(** ** Sequences of recorded reviews *)

(** The ledger updater applied to a sequence of reviews of one language on
    one day; each review comes with the card list [handleReview] computed. *)
Fixpoint record_all (lang : Lang) (today : string)
    (rs : list (bool * list Card.t)) (st : AppData.t) : AppData.t :=
  match rs with
  | [] => st
  | (correct, updatedCards) :: rs' =>
      record_all lang today rs' (recordReview lang today correct updatedCards st)
  end.

(** ** The shape the specification asks an imported backup to have *)

Definition JSON_field (k : string) (v : JSON) : option JSON :=
  match v with
  | JObject fields => snd <$> List.find (fun kv => String.eqb (fst kv) k) fields
  | _ => None
  end.

Definition is_array (v : option JSON) : bool :=
  match v with Some (JArray _) => true | _ => false end.

Definition is_object (v : option JSON) : bool :=
  match v with Some (JObject _) => true | _ => false end.

(** The top-level shape section 4.5 of the specification describes: a cards
    sequence, a profile record, an achievements sequence and a stats mapping.
    [importData] makes no such check; the predicate serves to say so. *)
Definition top_level_shape_ok (v : JSON) : bool :=
  is_array (JSON_field "cards" v) && is_object (JSON_field "profile" v)
  && is_array (JSON_field "achievements" v)
  && is_object (JSON_field "dailyStatsByLang" v).

(** ** Backup export and JSON text *)

(** A JSON text, by its syntax tree.  A numeral is represented by the number
    it denotes, a finite double: [JSON.stringify] prints a finite number as
    the shortest decimal numeral that reads back as the same number
    (Number::toString), and [JSON.parse] reads a numeral as the double
    nearest to it.  A string literal is represented by the string it
    denotes: the escapes [JSON.stringify] writes (QuoteJSONString) are those
    [JSON.parse] reads back.  The members of an object are in the order of
    the text and may repeat a key. *)
Inductive JSONDoc :=
  | DNull
  | DBool (b : bool)
  | DNumeral (x : float)
  | DString (s : string)
  | DArray (items : list JSONDoc)
  | DObject (members : list (string * JSONDoc)).

(** The text of a file: a JSON text, or one [JSON.parse] rejects. *)
Inductive Text := Document (d : JSONDoc) | Malformed.

(** [JSON.stringify(v)] on the values of the type [JSON]
    (SerializeJSONProperty): NaN and the infinities are written [null], both
    zeros are written [0]; the properties of an object are written in their
    order. *)
Fixpoint JSON_stringify (v : JSON) : JSONDoc :=
  match v with
  | JNull => DNull
  | JBool b => DBool b
  | JNumber n =>
      if is_finite n then DNumeral (if is_zero n then 0 else n) else DNull
  | JString s => DString s
  | JArray items => DArray (List.map JSON_stringify items)
  | JObject fields =>
      DObject (List.map (fun kv => match kv with (k, x) => (k, JSON_stringify x) end)
                        fields)
  end.

(** CreateDataProperty on an object under construction: a key the object
    already has keeps its place and takes the new value. *)
Fixpoint set_property (k : string) (v : JSON) (fields : list (string * JSON))
    : list (string * JSON) :=
  match fields with
  | [] => [(k, v)]
  | (k', v') :: rest =>
      if String.eqb k' k then (k', v) :: rest else (k', v') :: set_property k v rest
  end.

(** The value of a JSON text. *)
Fixpoint JSON_value (d : JSONDoc) : JSON :=
  match d with
  | DNull => JNull
  | DBool b => JBool b
  | DNumeral x => JNumber x
  | DString s => JString s
  | DArray items => JArray (List.map JSON_value items)
  | DObject members =>
      JObject (fold_left (fun acc kv => set_property (fst kv) (snd kv) acc)
                 (List.map (fun kv => match kv with (k, x) => (k, JSON_value x) end)
                           members)
                 [])
  end.

(** [JSON.parse(text)]: [None] when it throws. *)
Definition JSON_parse (text : Text) : option JSON :=
  match text with
  | Document d => Some (JSON_value d)
  | Malformed => None
  end.

(** The text [exportData] puts into the downloaded file. *)
Definition exportData (data : JSON) : Text := Document (JSON_stringify data).

(** The numbers a JSON text carries as they are: the finite ones other than
    negative zero. *)
Definition exact_number (n : float) : bool :=
  is_finite n && negb (is_zero n && get_sign n).

(** A value whose numbers are all carried as they are and whose objects have
    each key once, as the objects of a running program have. *)
Inductive JSON_exact : JSON -> Prop :=
  | exact_null : JSON_exact JNull
  | exact_bool b : JSON_exact (JBool b)
  | exact_num n : exact_number n = true -> JSON_exact (JNumber n)
  | exact_str s : JSON_exact (JString s)
  | exact_arr items : Forall JSON_exact items -> JSON_exact (JArray items)
  | exact_obj fields :
      NoDup (fst <$> fields) -> Forall (fun kv => JSON_exact (snd kv)) fields ->
      JSON_exact (JObject fields).

(** *** The state as a JavaScript value *)

Definition Level_str (l : Level) : string :=
  match l with
  | BEGINNER => "BEGINNER" | INTERMEDIATE => "INTERMEDIATE" | ADVANCED => "ADVANCED"
  end.

Definition CardKind_str (k : CardKind) : string :=
  match k with vocab => "vocab" | sentence => "sentence" end.

Definition NativeLang_str (l : NativeLang) : string := match l with DE => "DE" end.

(** An optional property: absent when the field is not set. *)
Definition optional {A} (k : string) (f : A -> JSON) (o : option A)
    : list (string * JSON) :=
  match o with Some a => [(k, f a)] | None => [] end.

Definition Card_toJS (c : Card.t) : JSON :=
  JObject ([("id", JString (Card.id c));
            ("targetLang", JString (Lang_str (Card.targetLang c)));
            ("kind", JString (CardKind_str (Card.kind c)));
            ("front", JString (Card.front c));
            ("back", JString (Card.back c))]
           ++ optional "example" JString (Card.example c)
           ++ optional "exampleTranslation" JString (Card.exampleTranslation c)
           ++ [("due", JNumber (Card.due c));
               ("intervalDays", JNumber (Card.intervalDays c));
               ("ease", JNumber (Card.ease c));
               ("lapses", JNumber (Card.lapses c))]
           ++ optional "lastReviewed" JNumber (Card.lastReviewed c)).

Definition DailyStat_toJS (s : DailyStat.t) : JSON :=
  JObject [("reviewed", JNumber (DailyStat.reviewed s));
           ("correct", JNumber (DailyStat.correct s));
           ("wrong", JNumber (DailyStat.wrong s));
           ("minutes", JNumber (DailyStat.minutes s))].

Definition Profile_toJS (p : Profile.t) : JSON :=
  JObject [("username", JString (Profile.username p));
           ("nativeLang", JString (NativeLang_str (Profile.nativeLang p)));
           ("targetLang", JString (Lang_str (Profile.targetLang p)));
           ("level", JString (Level_str (Profile.level p)));
           ("dailyGoal", JNumber (Profile.dailyGoal p));
           ("xp", JNumber (Profile.xp p));
           ("streak", JNumber (Profile.streak p));
           ("bestStreak", JNumber (Profile.bestStreak p));
           ("lastActiveDay", JString (Profile.lastActiveDay p));
           ("createdAt", JNumber (Profile.createdAt p))].

Definition Achievement_toJS (a : Achievement.t) : JSON :=
  JObject ([("id", JString (Achievement.id a));
            ("title", JString (Achievement.title a));
            ("desc", JString (Achievement.desc a));
            ("icon", JString (Achievement.icon a))]
           ++ optional "unlockedAt" JNumber (Achievement.unlockedAt a)).

Definition days_toJS (days : gmap string DailyStat.t) : JSON :=
  JObject ((fun kv => (fst kv, DailyStat_toJS (snd kv))) <$> map_to_list days).

(** The value of the [data] state that holds an [AppData]. *)
Definition AppData_toJS (d : AppData.t) : JSON :=
  JObject [("cards", JArray (Card_toJS <$> AppData.cards d));
           ("profile", Profile_toJS (AppData.profile d));
           ("achievements", JArray (Achievement_toJS <$> AppData.achievements d));
           ("dailyStatsByLang",
            JObject [("EN", days_toJS (AppData.dailyStatsByLang d EN));
                     ("ES", days_toJS (AppData.dailyStatsByLang d ES));
                     ("FR", days_toJS (AppData.dailyStatsByLang d FR));
                     ("RU", days_toJS (AppData.dailyStatsByLang d RU))])].

(** *** Valid states *)

(** The numbers of the data model are timestamps, counts, day counts and
    eases: finite numbers, none of them negative zero. *)
Definition valid_number (n : float) : Prop := exact_number n = true.

Definition valid_optional (o : option float) : Prop :=
  match o with Some n => valid_number n | None => True end.

Definition valid_Card (c : Card.t) : Prop :=
  valid_number (Card.due c) /\ valid_number (Card.intervalDays c) /\
  valid_number (Card.ease c) /\ valid_number (Card.lapses c) /\
  valid_optional (Card.lastReviewed c).

Definition valid_DailyStat (s : DailyStat.t) : Prop :=
  valid_number (DailyStat.reviewed s) /\ valid_number (DailyStat.correct s) /\
  valid_number (DailyStat.wrong s) /\ valid_number (DailyStat.minutes s).

Definition valid_Profile (p : Profile.t) : Prop :=
  valid_number (Profile.dailyGoal p) /\ valid_number (Profile.xp p) /\
  valid_number (Profile.streak p) /\ valid_number (Profile.bestStreak p) /\
  valid_number (Profile.createdAt p).

Definition valid_AppData (d : AppData.t) : Prop :=
  Forall valid_Card (AppData.cards d) /\
  valid_Profile (AppData.profile d) /\
  Forall (fun a => valid_optional (Achievement.unlockedAt a)) (AppData.achievements d) /\
  forall l, map_Forall (fun _ s => valid_DailyStat s) (AppData.dailyStatsByLang d l).

(** ** The filter of the render, with a running clock *)

(** The callback of [data.cards.filter] is
    [c.targetLang === currentLang && c.due <= Date.now()]: it reads the
    clock once for every card of the current course, and not at all for the
    cards of the other languages.  [clock k] is the reading number [k] of
    the render. *)
Fixpoint dueFilter (currentLang : Lang) (clock : nat -> float) (k : nat)
    (cards : list Card.t) : list Card.t :=
  match cards with
  | [] => []
  | c :: rest =>
      if decide (Card.targetLang c = currentLang)
      then if Card.due c <=? clock k
           then c :: dueFilter currentLang clock (S k) rest
           else dueFilter currentLang clock (S k) rest
      else dueFilter currentLang clock k rest
  end.

Definition dueCardsAt (clock : nat -> float) (data : AppData.t) : list Card.t :=
  dueFilter (Profile.targetLang (AppData.profile data)) clock 0 (AppData.cards data).

Definition nextCardAt (clock : nat -> float) (data : AppData.t) : option Card.t :=
  head (dueCardsAt clock data).

(** The number of readings the filter has made when it has gone through the
    cards [l]. *)
Definition readings (currentLang : Lang) (l : list Card.t) : nat :=
  length (filter (fun c => Card.targetLang c = currentLang) l).

(** The card [c], which the filter reaches after the cards [l], is kept. *)
Definition dueAt (clock : nat -> float) (data : AppData.t) (l : list Card.t)
    (c : Card.t) : Prop :=
  let currentLang := Profile.targetLang (AppData.profile data) in
  Card.targetLang c = currentLang /\
  (Card.due c <=? clock (readings currentLang l)) = true.

(** ** Sample states *)

(** A session: the app starts on 2024-01-01 with nothing stored and the
    English pack is loaded. *)
Definition sampleEnv : Env.t :=
  Env.mk (fun i => String (Ascii.ascii_of_nat (97 + i)) "7k2lq")
         (fun _ => 1704103200000).

Definition sampleData : option AppData.t :=
  downloadLanguagePack sampleEnv EN (Some (initialData "2024-01-01" 1704103200000)).

Definition backupWithoutProfile : JSON :=
  JObject [("cards", JArray []); ("achievements", JArray []);
           ("dailyStatsByLang", JObject [])].

Definition priorState : JSON :=
  JObject [("cards", JArray []);
           ("profile", JObject [("username", JString "User")]);
           ("achievements", JArray []);
           ("dailyStatsByLang", JObject [])].

(** A state with two cards and one day of statistics. *)
Definition sampleBackup : AppData.t :=
  {| AppData.cards := [freshCard; hardCard];
     AppData.profile :=
       Profile.mk "User" DE EN BEGINNER 10 34 0 0 "2024-01-01" 1704103200000;
     AppData.achievements :=
       [Achievement.mk "welcome" "Willkommen" "Erste Sprache geladen" "🚀" None];
     AppData.dailyStatsByLang :=
       fun l => match l with
                | EN => {[ "2024-01-01" := DailyStat.mk 5 3 0 0 ]}
                | _ => ∅
                end |}.

(** A deck of two cards that fall due at the same millisecond, and a clock
    that ticks to that millisecond between the first and the second reading
    of a render. *)
Definition tickData : AppData.t :=
  {| AppData.cards :=
       [Card.mk "a" EN vocab "Haus" "house" None None 1001 0 2.0 0 None;
        Card.mk "b" EN vocab "Buch" "book" None None 1001 0 2.0 0 None];
     AppData.profile :=
       Profile.mk "User" DE EN BEGINNER 10 0 0 0 "2024-01-01" 0;
     AppData.achievements := [];
     AppData.dailyStatsByLang := fun _ => ∅ |}.

Definition tickClock (k : nat) : float :=
  match k with O => 1000 | S _ => 1001 end.

(** ** Sessions *)

(** The entries of the pack of a language, vocabulary first. *)
Definition packEntries (lang : Lang) : list PackEntry.t :=
  Pack.vocab (PACKS_API lang) ++ Pack.sentences (PACKS_API lang).

(** A card whose texts are those of an entry of the pack of its language. *)
Definition from_pack (c : Card.t) : Prop :=
  exists v, v ∈ packEntries (Card.targetLang c) /\
            Card.front c = PackEntry.de v /\ Card.back c = PackEntry.x v.

(** The keys of all the cards the four packs can give. *)
Definition allPackKeys : list string :=
  lang ← [EN; ES; FR; RU]; entryKey lang <$> packEntries lang.

(** The states a session goes through from the initial state by loading
    packs and answering reviews, without importing a backup; [today0] and
    [now0] are the day and the clock reading of the start. *)
Inductive reachable (today0 : string) (now0 : float) : AppData.t -> Prop :=
  | reachable_initial : reachable today0 now0 (initialData today0 now0)
  | reachable_download env lang d d' :
      reachable today0 now0 d ->
      downloadLanguagePack env lang (Some d) = Some d' ->
      reachable today0 now0 d'
  | reachable_review rendered now today correct d d' :
      reachable today0 now0 d ->
      handleReview rendered now today correct (Some d) = Some d' ->
      reachable today0 now0 d'.

(** A card is due at [now] in the course of [data]: it belongs to the
    current course and its due date has come. *)
Definition isDue (now : float) (data : AppData.t) (c : Card.t) : Prop :=
  Card.targetLang c = Profile.targetLang (AppData.profile data) ∧
  (Card.due c <=? now) = true.

(** The callback [handleReview] maps over the cards: the cards with the id
    of the chosen card are rescheduled. *)
Definition reviewCard (now : float) (correct : bool) (next c : Card.t) : Card.t :=
  if String.eqb (Card.id c) (Card.id next) then schedule now c correct else c.

(** * Properties *)

(** ** Binary64 arithmetic on [spec_float] *)

Module SF.
Local Open Scope Z_scope.

Lemma lexcmp_antisym e1 m1 e2 m2 : lexcmp e2 m2 e1 m1 = CompOpp (lexcmp e1 m1 e2 m2).
Proof.
  unfold lexcmp. rewrite (Z.compare_antisym e1 e2).
  destruct (e1 ?= e2); simpl; auto.
  apply Pos.compare_antisym.
Qed.

Lemma lexcmp_le_trans e1 m1 e2 m2 e3 m3 :
  lexcmp e1 m1 e2 m2 <> Gt -> lexcmp e2 m2 e3 m3 <> Gt -> lexcmp e1 m1 e3 m3 <> Gt.
Proof.
  unfold lexcmp.
  destruct (Z.compare_spec e1 e2), (Z.compare_spec e2 e3), (Z.compare_spec e1 e3);
    try lia; try congruence;
    destruct (Pos.compare_spec m1 m2), (Pos.compare_spec m2 m3), (Pos.compare_spec m1 m3);
    try lia; congruence.
Qed.

(** [SFleb] in terms of [SFcompare]. *)
Lemma SFleb_compare x y :
  SFleb x y = true <-> (SFcompare x y = Some Lt \/ SFcompare x y = Some Eq).
Proof.
  unfold SFleb. destruct (SFcompare x y) as [[]|]; intuition congruence.
Qed.

Lemma SFltb_compare x y : SFltb x y = true <-> SFcompare x y = Some Lt.
Proof.
  unfold SFltb. destruct (SFcompare x y) as [[]|]; intuition congruence.
Qed.

Lemma SFcompare_finite s1 m1 e1 s2 m2 e2 :
  SFcompare (S754_finite s1 m1 e1) (S754_finite s2 m2 e2) =
  Some (match s1, s2 with
        | true, false => Lt
        | false, true => Gt
        | false, false => lexcmp e1 m1 e2 m2
        | true, true => CompOpp (lexcmp e1 m1 e2 m2)
        end).
Proof.
  destruct s1, s2; simpl; unfold lexcmp; destruct (e1 ?= e2); reflexivity.
Qed.

Lemma SFcompare_antisym x y :
  SFcompare y x = option_map CompOpp (SFcompare x y).
Proof.
  destruct x as [[]|[]| |sx mx ex], y as [[]|[]| |sy my ey]; try reflexivity;
    try (destruct sx; reflexivity); try (destruct sy; reflexivity).
  rewrite !SFcompare_finite, (lexcmp_antisym ex mx ey my).
  destruct sx, sy, (lexcmp ex mx ey my); reflexivity.
Qed.

Lemma SFltb_SFleb x y : SFltb x y = true -> SFleb x y = true.
Proof. rewrite SFltb_compare, SFleb_compare. auto. Qed.

(** Two numbers that are not NaN are comparable. *)
Lemma SFleb_total x y :
  x <> S754_nan -> y <> S754_nan -> SFltb x y = false -> SFleb y x = true.
Proof.
  intros Hx Hy H. apply SFleb_compare. rewrite SFcompare_antisym.
  unfold SFltb in H.
  destruct (SFcompare x y) as [[]|] eqn:E; simpl; auto; try discriminate.
  destruct x, y; try congruence; discriminate.
Qed.

Lemma SFleb_finite s1 m1 e1 s2 m2 e2 :
  SFleb (S754_finite s1 m1 e1) (S754_finite s2 m2 e2) = true <->
  match s1, s2 with
  | true, false => True
  | false, true => False
  | false, false => lexcmp e1 m1 e2 m2 <> Gt
  | true, true => lexcmp e2 m2 e1 m1 <> Gt
  end.
Proof.
  unfold SFleb. rewrite SFcompare_finite, (lexcmp_antisym e1 m1 e2 m2).
  destruct s1, s2, (lexcmp e1 m1 e2 m2); simpl; intuition congruence.
Qed.

Lemma SFleb_trans x y z : SFleb x y = true -> SFleb y z = true -> SFleb x z = true.
Proof.
  destruct x as [[]|[]| |sx mx ex], y as [[]|[]| |sy my ey], z as [[]|[]| |sz mz ez];
    try reflexivity; try discriminate;
    try (destruct sx; try reflexivity; discriminate);
    try (destruct sy; try reflexivity; discriminate);
    try (destruct sz; try reflexivity; discriminate);
    try (destruct sx, sy; try reflexivity; discriminate);
    try (destruct sy, sz; try reflexivity; discriminate);
    try (destruct sx, sz; try reflexivity; discriminate).
  all: rewrite ?SFleb_finite.
  all: try (destruct sx, sy; simpl; intros; try reflexivity; try discriminate; tauto).
  all: try (destruct sy, sz; simpl; intros; try reflexivity; try discriminate; tauto).
  destruct sx, sy, sz; try tauto; eauto using lexcmp_le_trans.
Qed.

(** *** Rounding *)

Lemma shr_1_m r : 0 <= shr_m r -> shr_m (shr_1 r) = shr_m r / 2.
Proof.
  destruct r as [m b s]; simpl. intros Hm. rewrite <- Z.div2_div.
  destruct m as [|[p|p|]|p]; try reflexivity; lia.
Qed.

Lemma pow2_xO p : 2 ^ Z.pos p~0 = 2 ^ Z.pos p * 2 ^ Z.pos p.
Proof. rewrite <- Z.pow_add_r by lia. f_equal. lia. Qed.

Lemma pow2_xI p : 2 ^ Z.pos p~1 = 2 * (2 ^ Z.pos p * 2 ^ Z.pos p).
Proof.
  rewrite <- Z.pow_add_r by lia.
  replace (Z.pos p~1) with (1 + (Z.pos p + Z.pos p)) by lia.
  rewrite Z.pow_add_r by lia. reflexivity.
Qed.

Lemma iter_pos_shr_m p : forall r,
  0 <= shr_m r -> shr_m (SpecFloat.iter_pos shr_1 p r) = shr_m r / 2 ^ Z.pos p.
Proof.
  assert (Hdiv : forall a b c, 0 < b -> 0 < c -> a / b / c = a / (b * c)).
  { intros. apply Z.div_div; lia. }
  assert (Hpow : forall q, 0 < 2 ^ Z.pos q) by (intros; apply Z.pow_pos_nonneg; lia).
  induction p as [p IH|p IH|]; intros r Hr; simpl SpecFloat.iter_pos.
  - assert (H1 : 0 <= shr_m (shr_1 r)) by (rewrite shr_1_m by lia; apply Z.div_pos; lia).
    assert (H2 : 0 <= shr_m (SpecFloat.iter_pos shr_1 p (shr_1 r))).
    { rewrite IH by lia. apply Z.div_pos; auto. }
    rewrite IH, IH, shr_1_m by lia.
    rewrite pow2_xI, !Hdiv; auto; try lia.
  - assert (H2 : 0 <= shr_m (SpecFloat.iter_pos shr_1 p r)).
    { rewrite IH by lia. apply Z.div_pos; auto. }
    rewrite IH, IH by lia.
    rewrite pow2_xO, !Hdiv; auto.
  - rewrite shr_1_m by lia. reflexivity.
Qed.

Lemma round_nearest_even_bounds m l :
  m <= round_nearest_even m l <= m + 1.
Proof.
  destruct l as [|[]]; simpl; try lia. destruct (Z.even m); lia.
Qed.

(** The number of binary digits of a positive number. *)
Lemma digits2_pos_size p : digits2_pos p = Pos.size p.
Proof. induction p; simpl; congruence. Qed.

Lemma Zdigits2_log2 p : Zdigits2 (Z.pos p) = Z.succ (Z.log2 (Z.pos p)).
Proof.
  simpl. rewrite digits2_pos_size. destruct p; simpl; try reflexivity;
    rewrite Pos2Z.inj_succ; reflexivity.
Qed.

Lemma Zdigits2_eq n d : 0 < d -> 2 ^ (d - 1) <= n < 2 ^ d -> Zdigits2 n = d.
Proof.
  intros Hd [Hl Hu].
  assert (0 < n). { assert (0 < 2 ^ (d - 1)) by (apply Z.pow_pos_nonneg; lia). lia. }
  destruct n as [|p|p]; try lia.
  rewrite Zdigits2_log2.
  rewrite (Z.log2_unique (Z.pos p) (d - 1)); try lia.
  replace (Z.succ (d - 1)) with d by lia. lia.
Qed.

Lemma Zdigits2_bounds p : 2 ^ (Zdigits2 (Z.pos p) - 1) <= Z.pos p < 2 ^ Zdigits2 (Z.pos p).
Proof.
  rewrite Zdigits2_log2. replace (Z.succ (Z.log2 (Z.pos p)) - 1) with (Z.log2 (Z.pos p)) by lia.
  apply Z.log2_spec. lia.
Qed.

Lemma shr_record_of_loc_m m l : shr_m (shr_record_of_loc m l) = m.
Proof. destruct l as [|[]]; reflexivity. Qed.

Lemma shr_spec r e n :
  0 <= shr_m r ->
  shr_m (fst (shr r e n)) = shr_m r / 2 ^ Z.max 0 n /\ snd (shr r e n) = e + Z.max 0 n.
Proof.
  intros Hr. destruct n as [|p|p]; simpl shr; simpl fst; simpl snd.
  - change (Z.max 0 0) with 0. rewrite Z.pow_0_r, Z.div_1_r. lia.
  - change (Z.max 0 (Z.pos p)) with (Z.pos p). split; [apply iter_pos_shr_m; lia | reflexivity].
  - change (Z.max 0 (Z.neg p)) with 0. rewrite Z.pow_0_r, Z.div_1_r. lia.
Qed.

(** What [binary_round_aux] computes for a positive mantissa, in terms of
    integer division. *)
Lemma binary_round_aux_spec sx p E :
  let n1 := Z.max 0 (fexp prec emax (Zdigits2 (Z.pos p) + E) - E) in
  let m1 := Z.pos p / 2 ^ n1 in
  exists r1, m1 <= r1 <= m1 + 1 /\
    let e1 := E + n1 in
    let n2 := Z.max 0 (fexp prec emax (Zdigits2 r1 + e1) - e1) in
    binary_round_aux prec emax sx (Z.pos p) E loc_Exact =
    match r1 / 2 ^ n2 with
    | Z0 => S754_zero sx
    | Z.pos m => if e1 + n2 <=? emax - prec then S754_finite sx m (e1 + n2)
                 else S754_infinity sx
    | Z.neg _ => S754_nan
    end.
Proof.
  intros n1 m1. unfold binary_round_aux, shr_fexp.
  destruct (shr_spec (shr_record_of_loc (Z.pos p) loc_Exact) E
              (fexp prec emax (Zdigits2 (Z.pos p) + E) - E)) as [Hm He]; [simpl; lia|].
  destruct (shr _ E _) as [mrs' e']. cbn [fst snd] in Hm, He.
  rewrite shr_record_of_loc_m in Hm. fold n1 in Hm, He. fold m1 in Hm.
  set (r1 := round_nearest_even (shr_m mrs') (loc_of_shr_record mrs')).
  assert (Hr1 : m1 <= r1 <= m1 + 1).
  { rewrite <- Hm. apply round_nearest_even_bounds. }
  assert (Hm1 : 0 <= m1) by (apply Z.div_pos; [lia | apply Z.pow_pos_nonneg; lia]).
  exists r1. split; [exact Hr1|]. cbv zeta. subst e'.
  destruct (shr_spec (shr_record_of_loc r1 loc_Exact) (E + n1)
              (fexp prec emax (Zdigits2 r1 + (E + n1)) - (E + n1))) as [Hm2 He2];
    [rewrite shr_record_of_loc_m; lia|].
  destruct (shr _ (E + n1) _) as [mrs'' e'']. cbn [fst snd] in Hm2, He2.
  rewrite shr_record_of_loc_m in Hm2. rewrite Hm2, He2. reflexivity.
Qed.

Lemma binary_round_aux_not_nan sx p E :
  binary_round_aux prec emax sx (Z.pos p) E loc_Exact <> S754_nan.
Proof.
  destruct (binary_round_aux_spec sx p E) as (r1 & Hr1 & ->).
  assert (0 <= Z.pos p / 2 ^ Z.max 0 (fexp prec emax (Zdigits2 (Z.pos p) + E) - E))
    by (apply Z.div_pos; [lia | apply Z.pow_pos_nonneg; lia]).
  match goal with |- context [r1 / ?d] =>
    assert (0 <= r1 / d) by (apply Z.div_pos; [lia | apply Z.pow_pos_nonneg; lia]);
    destruct (r1 / d) end; try discriminate; try lia.
  destruct (_ <=? _); discriminate.
Qed.

Lemma binary_normalize_not_nan m e sz : binary_normalize prec emax m e sz <> S754_nan.
Proof.
  destruct m as [|p|p]; simpl; try discriminate; unfold binary_round;
    destruct (shl_align _ _ _) as [mz ez]; apply binary_round_aux_not_nan.
Qed.

(** Rounding a mantissa of [d >= 53] binary digits in the normal range: the
    result is a finite number whose exponent is at least [E + d - 53] and
    whose mantissa is at least the truncated one. *)
Lemma binary_round_aux_normal sx p E d :
  Zdigits2 (Z.pos p) = d -> 53 <= d -> -1074 <= E -> E + d <= 1023 ->
  exists m' e',
    binary_round_aux prec emax sx (Z.pos p) E loc_Exact = S754_finite sx m' e' /\
    E + d - 53 <= e' /\ Z.pos p / 2 ^ (e' - E) <= Z.pos m'.
Proof.
  intros Hd Hd53 HE Hov.
  destruct (binary_round_aux_spec sx p E) as (r1 & Hr1 & ->).
  rewrite Hd in *.
  assert (Hn1 : Z.max 0 (fexp prec emax (d + E) - E) = d - 53).
  { unfold fexp, SpecFloat.emin, prec, emax. lia. }
  rewrite Hn1 in *.
  pose proof (Zdigits2_bounds p) as Hb. rewrite Hd in Hb.
  assert (H52 : 2 ^ 52 <= Z.pos p / 2 ^ (d - 53) < 2 ^ 53).
  { assert (0 < 2 ^ (d - 53)) by (apply Z.pow_pos_nonneg; lia).
    split.
    - apply Z.div_le_lower_bound; [lia|].
      rewrite <- Z.pow_add_r by lia. replace (d - 53 + 52) with (d - 1) by lia. lia.
    - apply Z.div_lt_upper_bound; [lia|].
      rewrite <- Z.pow_add_r by lia. replace (d - 53 + 53) with d by lia. lia. }
  destruct (Z_lt_le_dec r1 (2 ^ 53)) as [Hlt|Hge].
  - rewrite (Zdigits2_eq r1 53) by lia.
    replace (Z.max 0 (fexp prec emax (53 + (E + (d - 53))) - (E + (d - 53)))) with 0
      by (unfold fexp, SpecFloat.emin, prec, emax; lia).
    rewrite Z.pow_0_r, Z.div_1_r.
    destruct r1 as [|m'|m']; try lia.
    replace (E + (d - 53) + 0 <=? emax - prec) with true
      by (symmetry; apply Z.leb_le; unfold prec, emax; lia).
    exists m', (E + (d - 53) + 0). split; [reflexivity|]. split; [lia|].
    replace (E + (d - 53) + 0 - E) with (d - 53) by lia. lia.
  - assert (r1 = 2 ^ 53) by lia. subst r1.
    rewrite (Zdigits2_eq (2 ^ 53) 54) by (change (2 ^ (54 - 1)) with (2 ^ 53);
      change (2 ^ 53) with 9007199254740992; change (2 ^ 54) with 18014398509481984; lia).
    replace (Z.max 0 (fexp prec emax (54 + (E + (d - 53))) - (E + (d - 53)))) with 1
      by (unfold fexp, SpecFloat.emin, prec, emax; lia).
    change (2 ^ 53 / 2 ^ 1) with (Z.pos (2 ^ 52)%positive).
    replace (E + (d - 53) + 1 <=? emax - prec) with true
      by (symmetry; apply Z.leb_le; unfold prec, emax; lia).
    exists (2 ^ 52)%positive, (E + (d - 53) + 1). split; [reflexivity|]. split; [lia|].
    replace (E + (d - 53) + 1 - E) with (d - 53 + 1) by lia.
    rewrite Z.pow_add_r, <- Z.div_div by (try apply Z.pow_pos_nonneg; lia).
    change (2 ^ 1) with 2. change (Z.pos (2 ^ 52)) with (2 ^ 52).
    apply Z.div_le_upper_bound; lia.
Qed.
End SF.

(** ** Binary64 numbers: order and the two sums the scheduler computes *)

Module F64.
Local Open Scope float_scope.

Lemma SFcompare_refl x : x <> S754_nan -> SFcompare x x = Some Eq.
Proof.
  destruct x as [[]|[]| |[] m e]; try reflexivity; try congruence; intros _;
    rewrite SF.SFcompare_finite; unfold lexcmp;
    rewrite Z.compare_refl, Pos.compare_refl; reflexivity.
Qed.

Lemma is_nan_spec x : is_nan x = true <-> Prim2SF x = S754_nan.
Proof.
  unfold is_nan. rewrite FloatAxioms.eqb_spec. unfold SFeqb.
  destruct (Prim2SF x) eqn:E; try (rewrite SFcompare_refl by discriminate);
    simpl; intuition congruence.
Qed.

Lemma is_nan_false x : is_nan x = false <-> Prim2SF x <> S754_nan.
Proof. rewrite <- is_nan_spec. destruct (is_nan x); intuition congruence. Qed.

Lemma le_not_nan x y : fle x y -> is_nan x = false /\ is_nan y = false.
Proof.
  unfold fle. rewrite FloatAxioms.leb_spec, !is_nan_false. intros H.
  split; intros E; rewrite E in H; [|destruct (Prim2SF x)]; discriminate.
Qed.

Lemma le_trans x y z : fle x y -> fle y z -> fle x z.
Proof. unfold fle. rewrite !FloatAxioms.leb_spec. apply SF.SFleb_trans. Qed.

Lemma lt_le x y : (x <? y) = true -> fle x y.
Proof. unfold fle. rewrite FloatAxioms.ltb_spec, FloatAxioms.leb_spec. apply SF.SFltb_SFleb. Qed.

Lemma not_lt_le x y : is_nan x = false -> is_nan y = false -> (x <? y) = false -> fle y x.
Proof.
  unfold fle. rewrite FloatAxioms.ltb_spec, FloatAxioms.leb_spec, !is_nan_false. apply SF.SFleb_total.
Qed.

Lemma le_refl x : is_nan x = false -> fle x x.
Proof.
  unfold fle. rewrite FloatAxioms.leb_spec, is_nan_false. intros H.
  unfold SFleb. rewrite SFcompare_refl by assumption. reflexivity.
Qed.

(** Adding or subtracting a finite number never produces NaN from a number. *)
Lemma add_not_nan x y : is_nan x = false -> finite64 y -> is_nan (x + y) = false.
Proof.
  rewrite !is_nan_false, FloatAxioms.add_spec. intros Hx (s & m & e & ->).
  destruct (Prim2SF x) as [[]|[]| |sx mx ex]; try discriminate; try congruence.
  apply SF.binary_normalize_not_nan.
Qed.

Lemma sub_not_nan x y : is_nan x = false -> finite64 y -> is_nan (x - y) = false.
Proof.
  rewrite !is_nan_false, FloatAxioms.sub_spec. intros Hx (s & m & e & ->).
  destruct (Prim2SF x) as [[]|[]| |sx mx ex]; try discriminate; try congruence.
  apply SF.binary_normalize_not_nan.
Qed.

(** The constants of the scheduler, as mantissa and exponent. *)
Lemma Prim2SF_0_1 : Prim2SF 0.1 = S754_finite false 7205759403792794 (-56).
Proof. vm_compute. reflexivity. Qed.

Lemma Prim2SF_0_2 : Prim2SF 0.2 = S754_finite false 7205759403792794 (-55).
Proof. vm_compute. reflexivity. Qed.

Lemma Prim2SF_1_3 : Prim2SF 1.3 = S754_finite false 5854679515581645 (-52).
Proof. vm_compute. reflexivity. Qed.

Lemma Prim2SF_2_8 : Prim2SF 2.8 = S754_finite false 6305039478318694 (-51).
Proof. vm_compute. reflexivity. Qed.

Lemma finite_0_1 : finite64 0.1.
Proof. unfold finite64. rewrite Prim2SF_0_1. eauto. Qed.

Lemma finite_0_2 : finite64 0.2.
Proof. unfold finite64. rewrite Prim2SF_0_2. eauto. Qed.

Local Open Scope Z_scope.

Lemma binary_round_normal sx p E :
  53 <= Zdigits2 (Z.pos p) -> -1074 <= E ->
  binary_round prec emax sx p E = binary_round_aux prec emax sx (Z.pos p) E loc_Exact.
Proof.
  intros Hd HE. unfold binary_round, shl_align.
  change (Z.pos (digits2_pos p)) with (Zdigits2 (Z.pos p)).
  destruct (fexp prec emax (Zdigits2 (Z.pos p) + E) - E) eqn:Hs; try reflexivity.
  unfold fexp, SpecFloat.emin, prec, emax in Hs. lia.
Qed.

(** A normal positive number is at most the rounded value of any exact sum
    that is at least as large. *)
Lemma round_ge m ex P E :
  53 <= Zdigits2 (Z.pos P) -> -1074 <= E -> E + Zdigits2 (Z.pos P) <= 1023 ->
  E <= ex <= E + Zdigits2 (Z.pos P) - 53 ->
  Z.pos m * 2 ^ (ex - E) <= Z.pos P ->
  SFleb (S754_finite false m ex) (binary_round prec emax false P E) = true.
Proof.
  intros Hd HE Hov Hex HP. rewrite binary_round_normal by assumption.
  destruct (SF.binary_round_aux_normal false P E _ eq_refl Hd HE Hov)
    as (m' & e' & -> & He' & Hm').
  apply SF.SFleb_finite. unfold lexcmp.
  destruct (Z.compare_spec ex e') as [->|Hlt|Hgt]; try discriminate; try lia.
  apply Pos.compare_le_iff.
  assert (Z.pos m <= Z.pos P / 2 ^ (e' - E)); [|lia].
  apply Z.div_le_lower_bound; [apply Z.pow_pos_nonneg; lia | lia].
Qed.

Lemma valid_normal m e :
  valid_binary (S754_finite false m e) = true -> -1074 < e ->
  4503599627370496 <= Z.pos m < 9007199254740992.
Proof.
  unfold SpecFloat.valid_binary, bounded, canonical_mantissa. intros H He.
  apply andb_prop in H as [H _]. apply Z.eqb_eq in H.
  pose proof (SF.Zdigits2_bounds m) as Hb.
  change (Zdigits2 (Z.pos m)) with (Z.pos (digits2_pos m)) in Hb.
  assert (Hd : Z.pos (digits2_pos m) = 53).
  { unfold fexp, SpecFloat.emin, prec, emax in H. lia. }
  rewrite Hd in Hb. exact Hb.
Qed.

(** On the range of valid eases, adding 0.1 does not decrease a number. *)
Lemma SF64add_0_1_lo m :
  SF64add (S754_finite false m (-52)) (S754_finite false 7205759403792794 (-56))
  = binary_round prec emax false (m~0~0~0~0 + 7205759403792794) (-56).
Proof. reflexivity. Qed.

Lemma SF64add_0_1_hi m :
  SF64add (S754_finite false m (-51)) (S754_finite false 7205759403792794 (-56))
  = binary_round prec emax false (m~0~0~0~0~0 + 7205759403792794) (-56).
Proof. reflexivity. Qed.

(** The binade [1, 2). *)
Lemma SF_add_0_1_ge_lo m :
  4503599627370496 <= Z.pos m < 9007199254740992 ->
  SFleb (S754_finite false m (-52))
        (SF64add (S754_finite false m (-52)) (S754_finite false 7205759403792794 (-56))) = true.
Proof.
  intros Hm. rewrite SF64add_0_1_lo.
  assert (HP : Z.pos (m~0~0~0~0 + 7205759403792794) = 16 * Z.pos m + 7205759403792794) by lia.
  assert (Hd : 57 <= Zdigits2 (Z.pos (m~0~0~0~0 + 7205759403792794)) <= 58).
  { destruct (Z_lt_le_dec (Z.pos (m~0~0~0~0 + 7205759403792794)) 144115188075855872) as [H|H].
    - rewrite (SF.Zdigits2_eq _ 57); [lia | lia |].
      change (2 ^ (57 - 1)) with 72057594037927936.
      change (2 ^ 57) with 144115188075855872. lia.
    - rewrite (SF.Zdigits2_eq _ 58); [lia | lia |].
      change (2 ^ (58 - 1)) with 144115188075855872.
      change (2 ^ 58) with 288230376151711744. lia. }
  apply round_ge; try lia.
Qed.

(** The binade [2, 4), up to 2.8. *)
Lemma SF_add_0_1_ge_hi m :
  4503599627370496 <= Z.pos m <= 6305039478318694 ->
  SFleb (S754_finite false m (-51))
        (SF64add (S754_finite false m (-51)) (S754_finite false 7205759403792794 (-56))) = true.
Proof.
  intros Hm. rewrite SF64add_0_1_hi.
  assert (HP : Z.pos (m~0~0~0~0~0 + 7205759403792794) = 32 * Z.pos m + 7205759403792794) by lia.
  assert (Hd : Zdigits2 (Z.pos (m~0~0~0~0~0 + 7205759403792794)) = 58).
  { apply SF.Zdigits2_eq; [lia|].
    change (2 ^ (58 - 1)) with 144115188075855872.
    change (2 ^ 58) with 288230376151711744. lia. }
  apply round_ge; try lia.
Qed.

(** On the range of valid eases, adding 0.1 does not decrease a number. *)
Lemma SF_add_0_1_ge x :
  valid_binary x = true ->
  SFleb (S754_finite false 5854679515581645 (-52)) x = true ->
  SFleb x (S754_finite false 6305039478318694 (-51)) = true ->
  SFleb x (SF64add x (S754_finite false 7205759403792794 (-56))) = true.
Proof.
  intros Hv Hlo Hhi.
  destruct x as [[]|[]| |s m e]; try discriminate Hlo; try discriminate Hhi.
  
  destruct s; [discriminate Hlo|].
  
  apply SF.SFleb_finite in Hlo, Hhi. unfold lexcmp in Hlo, Hhi.
  
  destruct (Z.compare_spec (-52) e) as [He|He|He]; [| |exfalso; apply Hlo; reflexivity].
  - subst e. pose proof (valid_normal _ _ Hv ltac:(lia)) as Hm.
  
    apply SF_add_0_1_ge_lo. clear Hhi Hlo Hv. lia.
  - destruct (Z.compare_spec e (-51)) as [He'|He'|He']; [|lia|exfalso; apply Hhi; reflexivity].
  
    subst e. pose proof (valid_normal _ _ Hv ltac:(lia)) as Hm.
  
    pose proof (Pos2Z.pos_le_pos _ _ (proj1 (Pos.compare_le_iff _ _) Hhi)) as Hhi'.
  
    apply SF_add_0_1_ge_hi. clear Hhi Hlo Hv. lia.
Qed.

Local Open Scope float_scope.

Lemma add_0_1_ge e : fle 1.3 e -> fle e 2.8 -> fle e (e + 0.1).
Proof.
  unfold fle. rewrite !FloatAxioms.leb_spec, FloatAxioms.add_spec, Prim2SF_0_1, Prim2SF_1_3, Prim2SF_2_8.
  apply SF_add_0_1_ge, Prim2SF_valid.
Qed.
End F64.

(** ** The clamp of the scheduler *)

Lemma Math_min_2_8 x :
  is_nan x = false -> JS.Math_min 2.8 x = if 2.8 <? x then 2.8 else x.
Proof.
  intros Hx. unfold JS.Math_min. rewrite Hx.
  change (is_nan 2.8) with false. change (get_sign 2.8) with false. simpl.
  destruct (2.8 <? x), (x <? 2.8); reflexivity.
Qed.

Lemma Math_max_1_3 y :
  is_nan y = false -> JS.Math_max 1.3 y = if 1.3 <? y then y else 1.3.
Proof.
  intros Hy. unfold JS.Math_max. rewrite Hy.
  change (is_nan 1.3) with false. change (get_sign 1.3) with false. simpl.
  destruct (1.3 <? y), (y <? 1.3); reflexivity.
Qed.

Lemma clamp_unfold x :
  is_nan x = false ->
  clamp x 1.3 2.8 =
  let y := if 2.8 <? x then 2.8 else x in if 1.3 <? y then y else 1.3.
Proof.
  intros Hx. unfold clamp. rewrite Math_min_2_8 by exact Hx.
  apply Math_max_1_3. destruct (2.8 <? x); [reflexivity | exact Hx].
Qed.

(** NaN is the one value [clamp] lets through. *)
Lemma clamp_nan x : is_nan x = true -> clamp x 1.3 2.8 = nan.
Proof.
  intros Hx. unfold clamp, JS.Math_min. rewrite Hx, orb_true_r. reflexivity.
Qed.

(** The clamp of a number lies within the inclusive bounds. *)
Lemma clamp_bounds x : is_nan x = false -> ease_ok (clamp x 1.3 2.8).
Proof.
  intros Hx. rewrite clamp_unfold by exact Hx. cbv zeta.
  destruct (2.8 <? x) eqn:Hhi.
  - change (1.3 <? 2.8) with true. split; reflexivity.
  - destruct (1.3 <? x) eqn:Hlo.
    + split; [apply F64.lt_le; exact Hlo | apply F64.not_lt_le; auto].
    + split; reflexivity.
Qed.

(** [clamp] is monotone above a valid ease: what was within the bounds and
    not above [x] is not above the clamp of [x]. *)
Lemma clamp_ge e x : ease_ok e -> fle e x -> fle e (clamp x 1.3 2.8).
Proof.
  intros [Hlo Hhi] Hex. destruct (F64.le_not_nan _ _ Hex) as [He Hx].
  rewrite clamp_unfold by exact Hx. cbv zeta.
  destruct (2.8 <? x) eqn:H28.
  - change (1.3 <? 2.8) with true. cbv iota. exact Hhi.
  - destruct (1.3 <? x) eqn:H13; [exact Hex|].
    apply F64.le_trans with x; [exact Hex|].
    apply F64.not_lt_le; auto.
Qed.

(** ** Scheduler *)

Lemma schedule_ease now c correct :
  Card.ease (schedule now c correct) =
  clamp (if correct then Card.ease c + 0.1 else Card.ease c - 0.2) 1.3 2.8.
Proof. destruct correct; reflexivity. Qed.

(** One review of a card whose ease is a number leaves a valid ease. *)
Lemma schedule_ease_ok now c correct :
  is_nan (Card.ease c) = false -> ease_ok (Card.ease (schedule now c correct)).
Proof.
  intros H. rewrite schedule_ease. apply clamp_bounds.
  destruct correct;
    [apply F64.add_not_nan, F64.finite_0_1 | apply F64.sub_not_nan, F64.finite_0_2];
    exact H.
Qed.

Lemma ease_ok_not_nan e : ease_ok e -> is_nan e = false.
Proof. intros [H _]. apply (F64.le_not_nan _ _ H). Qed.

(** A correct review does not decrease a valid ease. *)
Lemma schedule_correct_ease_mono now c :
  ease_ok (Card.ease c) -> fle (Card.ease c) (Card.ease (schedule now c true)).
Proof.
  intros H. rewrite schedule_ease. apply clamp_ge; [exact H|].
  destruct H. apply F64.add_0_1_ge; assumption.
Qed.

(** ** Ease along review sequences *)

Lemma review_all_ease_ok rs : forall c,
  ease_ok (Card.ease c) -> ease_ok (Card.ease (review_all c rs)).
Proof.
  induction rs as [|[correct now] rs IH]; intros c Hc; simpl; [exact Hc|].
  apply IH, schedule_ease_ok, ease_ok_not_nan, Hc.
Qed.

Lemma ease_trace_ok rs : forall c,
  ease_ok (Card.ease c) -> Forall ease_ok (ease_trace c rs).
Proof.
  induction rs as [|[correct now] rs IH]; intros c Hc; simpl.
  - constructor; [exact Hc | constructor].
  - constructor; [exact Hc|].
    apply IH, schedule_ease_ok, ease_ok_not_nan, Hc.
Qed.

Lemma ease_trace_head c rs : ease_trace c rs !! 0%nat = Some (Card.ease c).
Proof. destruct rs as [|[] ?]; reflexivity. Qed.

Lemma ease_trace_mono rs : forall c,
  ease_ok (Card.ease c) -> Forall (fun r => r.1 = true) rs ->
  forall (i : nat) (x y : float),
    ease_trace c rs !! i = Some x -> ease_trace c rs !! S i = Some y -> fle x y.
Proof.
  induction rs as [|[correct now] rs IH]; intros c Hc Hall i x y Hx Hy.
  - destruct i; discriminate Hy.
  - apply Forall_cons in Hall as [Hcorrect Hall]. simpl in Hcorrect. subst correct.
    destruct i as [|i]; simpl in Hx, Hy.
    + rewrite ease_trace_head in Hy. injection Hx as <-. injection Hy as <-.
      exact (schedule_correct_ease_mono now c Hc).
    + apply (IH (schedule now c true)) with i; auto.
      exact (schedule_ease_ok now c true (ease_ok_not_nan _ Hc)).
Qed.

(** C3. For a card of the data model, whose ease is within [1.3, 2.8], the
    ease stays within these inclusive bounds at every point of every review
    sequence; along an all-correct sequence it never decreases; an incorrect
    review never takes it below 1.3.  Whatever number the ease of a card is,
    one review brings it within the bounds. *)
Theorem ease_invariant (c : Card.t) (rs : list (bool * float)) :
  ease_ok (Card.ease c) ->
  Forall ease_ok (ease_trace c rs) /\
  ease_ok (Card.ease (review_all c rs)) /\
  (Forall (fun r => r.1 = true) rs ->
   forall (i : nat) (x y : float),
     ease_trace c rs !! i = Some x -> ease_trace c rs !! S i = Some y ->
     fle x y /\ fle y 2.8) /\
  (forall now, fle 1.3 (Card.ease (schedule now c false))) /\
  (forall (c' : Card.t) now correct,
     is_nan (Card.ease c') = false -> ease_ok (Card.ease (schedule now c' correct))).
Proof.
  intros Hc. split; [apply ease_trace_ok, Hc|].
  split; [apply review_all_ease_ok, Hc|].
  split.
  - intros Hall i x y Hx Hy. split.
    + apply (ease_trace_mono rs c Hc Hall i x y Hx Hy).
    + pose proof (ease_trace_ok rs c Hc) as Hok.
      rewrite Forall_lookup in Hok. apply (Hok _ _ Hy).
  - split.
    + intros now. exact (proj1 (schedule_ease_ok now c false (ease_ok_not_nan _ Hc))).
    + intros c' now correct. apply schedule_ease_ok.
Qed.

Lemma ease_invariant_witness :
  ease_ok (Card.ease freshCard) /\
  ease_ok (Card.ease (review_all freshCard [(true, 0); (false, 86400000); (true, 95040000)])).
Proof.
  assert (H : ease_ok (Card.ease freshCard)) by (split; reflexivity).
  split; [exact H|].
  exact (proj1 (proj2 (ease_invariant freshCard
           [(true, 0); (false, 86400000); (true, 95040000)] H))).
Defined.

(** ** Pack loader *)

Lemma fmap_imap_const {A B C} (g : B -> C) (h : A -> C) (l : list A) :
  forall f : nat -> A -> B, (forall i x, g (f i x) = h x) -> g <$> imap f l = h <$> l.
Proof.
  induction l as [|a l IH]; intros f Hf; simpl; [reflexivity|].
  rewrite Hf. f_equal. apply IH. intros i x. apply Hf.
Qed.

Lemma newCards_keys env lang V S :
  cardKey <$> newCards env lang V S = entryKey lang <$> (V ++ S).
Proof.
  unfold newCards. rewrite !fmap_app. f_equal; apply fmap_imap_const; reflexivity.
Qed.

(** The key of a card is the same string exactly when the language and the
    front text are the same. *)
Lemma cardKey_inj c1 c2 :
  cardKey c1 = cardKey c2 <->
  Card.targetLang c1 = Card.targetLang c2 /\ Card.front c1 = Card.front c2.
Proof.
  unfold cardKey. split.
  - destruct (Card.targetLang c1), (Card.targetLang c2); simpl; intros H;
      try discriminate H; injection H as H'; auto.
  - intros [-> ->]. reflexivity.
Qed.

Lemma filter_none {A} (P : A -> Prop) `{!forall x, Decision (P x)} (l : list A) :
  (forall x, x ∈ l -> ~ P x) -> filter P l = [].
Proof.
  induction l as [|a l IH]; intros Hl; [reflexivity|].
  rewrite filter_cons_False by (apply Hl; left).
  apply IH. intros x Hx. apply Hl. right. exact Hx.
Qed.

Lemma loadPack_elem existing env lang V S c :
  c ∈ loadPack existing env lang V S <->
  c ∈ newCards env lang V S /\ cardKey c ∉ cardKey <$> existing.
Proof.
  unfold loadPack. rewrite list_elem_of_filter, elem_of_list_to_set. tauto.
Qed.

Lemma loadPack_twice existing env env' lang V S :
  loadPack (existing ++ loadPack existing env lang V S) env' lang V S = [].
Proof.
  unfold loadPack at 1. apply filter_none. intros c' Hc' Hnew. apply Hnew.
  rewrite elem_of_list_to_set, fmap_app, elem_of_app.
  destruct (decide (cardKey c' ∈ cardKey <$> existing)) as [Hin|Hout]; [left; exact Hin|].
  right.
  assert (Hk : cardKey c' ∈ cardKey <$> newCards env lang V S).
  { rewrite newCards_keys, <- (newCards_keys env'). apply list_elem_of_fmap_2, Hc'. }
  apply list_elem_of_fmap in Hk as (c & Hkey & Hc).
  rewrite Hkey. apply list_elem_of_fmap_2, loadPack_elem. split; [exact Hc|].
  rewrite <- Hkey. exact Hout.
Qed.

(** C5. Pack loading is idempotent: loading the same vocabulary and sentence
    lists for the same language again, after the first delta was appended,
    yields no new card.  The filter drops exactly the candidates whose
    (targetLang, front) pair occurs among the existing cards; the new card
    list is the existing one followed by the delta, and downloading the pack
    of a language a second time leaves the card list as it is. *)
Theorem loadPack_idempotent (existing : list Card.t) (env env' : Env.t)
    (lang : Lang) (V S : list PackEntry.t) :
  loadPack (existing ++ loadPack existing env lang V S) env' lang V S = [] /\
  (forall c, c ∈ loadPack existing env lang V S <->
     c ∈ newCards env lang V S /\
     ~ exists e, e ∈ existing /\ Card.targetLang e = Card.targetLang c /\
                 Card.front e = Card.front c) /\
  (forall prev : AppData.t, exists st st',
     downloadLanguagePack env lang (Some prev) = Some st /\
     AppData.cards st =
       AppData.cards prev ++
       loadPack (AppData.cards prev) env lang
         (Pack.vocab (PACKS_API lang)) (Pack.sentences (PACKS_API lang)) /\
     downloadLanguagePack env' lang (Some st) = Some st' /\
     AppData.cards st' = AppData.cards st).
Proof.
  split; [apply loadPack_twice|]. split.
  - intros c. rewrite loadPack_elem. split; intros [Hc Hn]; (split; [exact Hc|]).
    + intros (e & He & Hl & Hf). apply Hn.
      replace (cardKey c) with (cardKey e) by (apply cardKey_inj; auto).
      apply list_elem_of_fmap_2, He.
    + intros Hin. apply list_elem_of_fmap in Hin as (e & Hkey & He).
      apply Hn. exists e. apply cardKey_inj in Hkey as [Hl Hf]. auto.
  - intros prev. eexists _, _. split; [reflexivity|]. split; [reflexivity|].
    split; [reflexivity|]. cbn [AppData.cards].
    rewrite loadPack_twice. apply app_nil_r.
Qed.

Lemma newCards_fresh env lang V S c :
  c ∈ newCards env lang V S ->
  exists i : nat, (i < length V + length S)%nat /\ fresh_state (Env.Date_now env i) c /\
                  Card.targetLang c = lang.
Proof.
  unfold newCards. rewrite elem_of_app, !elem_of_lookup_imap.
  intros [(i & v & -> & Hv)|(i & v & -> & Hv)].
  - exists i. apply lookup_lt_Some in Hv. repeat split. lia.
  - exists (length V + i)%nat. apply lookup_lt_Some in Hv. repeat split. lia.
Qed.

(** C10. Loading the pack of language [L] into an existing state sets
    [profile.targetLang] to [L] and leaves every other field of the profile
    as it was; the cards it appends all carry interval 0, ease 2.0, no lapse
    and, as due date, the clock reading taken when they were built (so [now]
    when the clock reads [now] throughout the load).  Without a state
    ([null]) nothing is loaded. *)
Theorem downloadLanguagePack_frame (env : Env.t) (L : Lang) (prev : AppData.t) :
  downloadLanguagePack env L None = None /\
  exists st delta,
    downloadLanguagePack env L (Some prev) = Some st /\
    Profile.targetLang (AppData.profile st) = L /\
    (let p := AppData.profile prev in
     let p' := AppData.profile st in
     Profile.username p' = Profile.username p /\
     Profile.nativeLang p' = Profile.nativeLang p /\
     Profile.level p' = Profile.level p /\
     Profile.dailyGoal p' = Profile.dailyGoal p /\
     Profile.xp p' = Profile.xp p /\
     Profile.streak p' = Profile.streak p /\
     Profile.bestStreak p' = Profile.bestStreak p /\
     Profile.lastActiveDay p' = Profile.lastActiveDay p /\
     Profile.createdAt p' = Profile.createdAt p) /\
    delta = loadPack (AppData.cards prev) env L
              (Pack.vocab (PACKS_API L)) (Pack.sentences (PACKS_API L)) /\
    AppData.cards st = AppData.cards prev ++ delta /\
    Forall (fun c => exists i, fresh_state (Env.Date_now env i) c) delta /\
    (forall now, (forall i, Env.Date_now env i = now) -> Forall (fresh_state now) delta).
Proof.
  split; [reflexivity|]. eexists _, _. split; [reflexivity|].
  cbn [AppData.profile AppData.cards]. split; [reflexivity|].
  split; [repeat split|]. split; [reflexivity|]. split; [reflexivity|].
  assert (Hd : forall c,
    c ∈ loadPack (AppData.cards prev) env L
          (Pack.vocab (PACKS_API L)) (Pack.sentences (PACKS_API L)) ->
    exists i, fresh_state (Env.Date_now env i) c).
  { intros c Hc. apply loadPack_elem in Hc as [Hc _].
    apply newCards_fresh in Hc as (i & _ & Hf & _). eauto. }
  split.
  - apply Forall_forall. exact Hd.
  - intros now Hnow. apply Forall_forall. intros c Hc.
    destruct (Hd c Hc) as (i & Hf). rewrite Hnow in Hf. exact Hf.
Qed.

Lemma downloadLanguagePack_frame_witness :
  (forall i, Env.Date_now sampleEnv i = 1704103200000) /\
  exists st delta,
    downloadLanguagePack sampleEnv EN (Some (initialData "2024-01-01" 1704103200000))
    = Some st /\
    Profile.targetLang (AppData.profile st) = EN /\
    AppData.cards st = [] ++ delta /\
    Forall (fresh_state 1704103200000) delta.
Proof.
  split; [reflexivity|].
  destruct (downloadLanguagePack_frame sampleEnv EN
              (initialData "2024-01-01" 1704103200000))
    as (_ & st & delta & Hst & Hlang & _ & _ & Hcards & _ & Hnow).
  exists st, delta. split; [exact Hst|]. split; [exact Hlang|].
  split; [exact Hcards|]. apply Hnow. reflexivity.
Defined.

(** ** Review ledger *)

Lemma recordReview_stat lang today correct updatedCards prev :
  AppData.dailyStatsByLang (recordReview lang today correct updatedCards prev) lang !! today
  = Some (bumpStat correct
            (default zeroStat (AppData.dailyStatsByLang prev lang !! today))).
Proof.
  unfold recordReview. cbn [AppData.dailyStatsByLang].
  rewrite decide_True by reflexivity. apply lookup_insert_eq.
Qed.

Lemma recordReview_other lang today correct updatedCards prev l d :
  l <> lang \/ d <> today ->
  AppData.dailyStatsByLang (recordReview lang today correct updatedCards prev) l !! d
  = AppData.dailyStatsByLang prev l !! d.
Proof.
  intros H. unfold recordReview. cbn [AppData.dailyStatsByLang].
  destruct (decide (l = lang)) as [->|Hl]; [|reflexivity].
  destruct H as [H|H]; [congruence|]. apply lookup_insert_ne. congruence.
Qed.

Lemma record_all_stat lang today rs : forall st,
  rs <> [] ->
  AppData.dailyStatsByLang (record_all lang today rs st) lang !! today
  = Some (fold_left (fun s r => bumpStat r.1 s) rs
            (default zeroStat (AppData.dailyStatsByLang st lang !! today))).
Proof.
  induction rs as [|[correct cards] rs IH]; intros st Hne; [congruence|].
  cbn [record_all fold_left fst]. destruct rs as [|r rs].
  - exact (recordReview_stat lang today correct cards st).
  - rewrite IH by discriminate.
    rewrite (recordReview_stat lang today correct cards st). reflexivity.
Qed.

(** Adding [+0] changes no number but [-0]. *)
Lemma add_zero_r x : x <> neg_zero -> x + 0 = x.
Proof.
  intros Hx. apply Prim2SF_inj. rewrite FloatAxioms.add_spec.
  change (Prim2SF 0) with (S754_zero false).
  destruct (Prim2SF x) as [[]|[]| |s m e] eqn:E; try reflexivity.
  exfalso. apply Hx. apply Prim2SF_inj. rewrite E. reflexivity.
Qed.

Lemma handleReview_some rendered now today correct d :
  exists updatedCards,
    handleReview rendered now today correct (Some d) =
    Some (match nextCard rendered d with
          | None => d
          | Some _ =>
              recordReview (Profile.targetLang (AppData.profile d)) today correct
                updatedCards d
          end).
Proof.
  unfold handleReview. destruct (nextCard rendered d) as [next|].
  - eexists. reflexivity.
  - exists []. reflexivity.
Qed.

Lemma fold_bump_3_2 (rs : list (bool * list Card.t)) :
  length (filter (fun r => r.1 = true) rs) = 3%nat ->
  length (filter (fun r => r.1 = false) rs) = 2%nat ->
  let s := fold_left (fun s r => bumpStat r.1 s) rs zeroStat in
  DailyStat.reviewed s = 5 /\ DailyStat.correct s = 3.
Proof.
  intros H1 H2.
  do 6 (try (destruct rs as [|[[] ?] rs]; vm_compute in H1, H2; try lia)).
  all: vm_compute; split; reflexivity.
Qed.

(** The state one run of the updater returns, read off the returned value
    alone: the DailyStat of (lang, day) is looked up, with all-zero counters
    when there is none, [reviewed] gets 1 more, [correct] 1 more on a correct
    review, [wrong], [minutes] and every other (language, day) entry stay,
    and 10 or 2 xp are added; so when every review runs the updater once,
    three correct and two incorrect reviews on a new (language, day) give
    [reviewed = 5] and [correct = 3]. *)
Lemma recordReview_one_run (prev : AppData.t) (lang : Lang) (today : string)
    (correct : bool) (updatedCards : list Card.t) :
  let st := recordReview lang today correct updatedCards prev in
  let old := default zeroStat (AppData.dailyStatsByLang prev lang !! today) in
  (exists s,
     AppData.dailyStatsByLang st lang !! today = Some s /\
     DailyStat.reviewed s = DailyStat.reviewed old + 1 /\
     DailyStat.correct s = DailyStat.correct old + (if correct then 1 else 0) /\
     (correct = false -> DailyStat.correct old <> neg_zero ->
      DailyStat.correct s = DailyStat.correct old) /\
     DailyStat.wrong s = DailyStat.wrong old /\
     DailyStat.minutes s = DailyStat.minutes old) /\
  (AppData.dailyStatsByLang prev lang !! today = None ->
   AppData.dailyStatsByLang st lang !! today
   = Some (DailyStat.mk 1 (if correct then 1 else 0) 0 0)) /\
  Profile.xp (AppData.profile st)
  = Profile.xp (AppData.profile prev) + (if correct then 10 else 2) /\
  (forall l d, l <> lang \/ d <> today ->
     AppData.dailyStatsByLang st l !! d = AppData.dailyStatsByLang prev l !! d) /\
  (forall rs : list (bool * list Card.t),
     length (filter (fun r => r.1 = true) rs) = 3%nat ->
     length (filter (fun r => r.1 = false) rs) = 2%nat ->
     AppData.dailyStatsByLang prev lang !! today = None ->
     exists s,
       AppData.dailyStatsByLang (record_all lang today rs prev) lang !! today = Some s /\
       DailyStat.reviewed s = 5 /\ DailyStat.correct s = 3) /\
  (forall rendered now next,
     nextCard rendered prev = Some next ->
     exists cards,
       handleReview rendered now today correct (Some prev) =
       Some (recordReview (Profile.targetLang (AppData.profile prev)) today correct
               cards prev)).
Proof.
  cbv zeta. split.
  { eexists. split; [apply recordReview_stat|]. cbn [bumpStat DailyStat.reviewed
      DailyStat.correct DailyStat.wrong DailyStat.minutes].
    repeat split. intros -> Hz. apply add_zero_r, Hz. }
  split.
  { intros Hnone. rewrite recordReview_stat, Hnone. destruct correct; reflexivity. }
  split; [reflexivity|]. split; [intros l d; apply recordReview_other|]. split.
  - intros rs H3 H2 Hnone.
    assert (Hne : rs <> []) by (intros ->; discriminate H3).
    rewrite (record_all_stat lang today rs prev Hne), Hnone. eexists. split; [reflexivity|].
    apply (fold_bump_3_2 rs H3 H2).
  - intros rendered now next Hnext.
    destruct (handleReview_some rendered now today correct prev) as [cards Hc].
    rewrite Hnext in Hc. eauto.
Qed.

(** ** Streak *)

(** C9, as stated, fails: the app is started on 2024-01-01 and the English
    pack loaded; a review recorded the next day, 2024-01-02, gives 10 xp but
    leaves [lastActiveDay] at 2024-01-01 and [streak] and [bestStreak] at 0,
    where the claim has [lastActiveDay] become 2024-01-02 and [streak] 1. *)
Lemma streak_counterexample :
  exists d st,
    sampleData = Some d /\
    handleReview 1704189600000 1704189600000 "2024-01-02" true (Some d) = Some st /\
    Profile.lastActiveDay (AppData.profile d) = "2024-01-01" /\
    Profile.lastActiveDay (AppData.profile st) = "2024-01-01" /\
    Profile.xp (AppData.profile st) = 10 /\
    Profile.streak (AppData.profile d) = 0 /\
    Profile.streak (AppData.profile st) = 0 /\
    (Profile.streak (AppData.profile st) =? Profile.streak (AppData.profile d) + 1) = false /\
    (Profile.streak (AppData.profile st) =? 1) = false /\
    Profile.bestStreak (AppData.profile st) = 0.
Proof.
  eexists _, _. split; [reflexivity|]. split; [reflexivity|].
  vm_compute. repeat split.
Qed.

(** C9, amended. Recording a review never changes [streak], [bestStreak] or
    [lastActiveDay], whatever the day key is: of the profile only [xp]
    changes. *)
Theorem review_keeps_streak (rendered now : float) (today : string)
    (correct : bool) (d : AppData.t) :
  exists st,
    handleReview rendered now today correct (Some d) = Some st /\
    (let p := AppData.profile d in
     let p' := AppData.profile st in
     Profile.streak p' = Profile.streak p /\
     Profile.bestStreak p' = Profile.bestStreak p /\
     Profile.lastActiveDay p' = Profile.lastActiveDay p /\
     Profile.username p' = Profile.username p /\
     Profile.nativeLang p' = Profile.nativeLang p /\
     Profile.targetLang p' = Profile.targetLang p /\
     Profile.level p' = Profile.level p /\
     Profile.dailyGoal p' = Profile.dailyGoal p /\
     Profile.createdAt p' = Profile.createdAt p) /\
    (forall lang cards,
       let p := AppData.profile d in
       let p' := AppData.profile (recordReview lang today correct cards d) in
       Profile.streak p' = Profile.streak p /\
       Profile.bestStreak p' = Profile.bestStreak p /\
       Profile.lastActiveDay p' = Profile.lastActiveDay p).
Proof.
  destruct (handleReview_some rendered now today correct d) as [cards ->].
  eexists. split; [reflexivity|]. split.
  - destruct (nextCard rendered d); repeat split.
  - intros lang cards'. repeat split.
Qed.

(** ** Backup import *)

(** C8, as stated, fails: a backup that parses to an object without a
    [profile] field is adopted as the new state and reported as loaded. *)
Lemma import_without_profile_counterexample :
  top_level_shape_ok backupWithoutProfile = false /\
  JSON_field "profile" backupWithoutProfile = None /\
  importData (Some (Some backupWithoutProfile)) priorState
  = (backupWithoutProfile, Some BackupLoaded) /\
  backupWithoutProfile <> priorState.
Proof. repeat split. discriminate. Qed.

(** C8, amended. [importData] validates nothing about the parsed value:
    whatever [JSON.parse] returns replaces the state and is reported as
    loaded; the import fails, leaving the state as it was, only when
    [JSON.parse] throws; without a selected file nothing happens. *)
Theorem importData_adopts_parsed (data : JSON) :
  (forall imported : JSON,
     importData (Some (Some imported)) data = (imported, Some BackupLoaded)) /\
  importData (Some None) data = (data, Some ImportError) /\
  importData None data = (data, None).
Proof. repeat split. Qed.

(** * Further properties of the code *)

(** ** [clamp] with arbitrary bounds *)

Lemma le_not_lt x y : fle x y -> (y <? x) = false.
Proof.
  unfold fle. rewrite FloatAxioms.leb_spec, FloatAxioms.ltb_spec.
  unfold SFleb, SFltb. rewrite (SF.SFcompare_antisym (Prim2SF x) (Prim2SF y)).
  destruct (SFcompare (Prim2SF x) (Prim2SF y)) as [[]|]; simpl; congruence.
Qed.

(** Without NaN the maximum is one of its arguments and above both. *)
Lemma Math_max_spec a b :
  is_nan a = false -> is_nan b = false ->
  (JS.Math_max a b = a \/ JS.Math_max a b = b) /\
  fle a (JS.Math_max a b) /\ fle b (JS.Math_max a b).
Proof.
  intros Ha Hb. unfold JS.Math_max. rewrite Ha, Hb. simpl.
  destruct (a <? b) eqn:Hab.
  - split; [auto|]. split; [apply F64.lt_le, Hab | apply F64.le_refl, Hb].
  - destruct (b <? a) eqn:Hba.
    + split; [auto|]. split; [apply F64.le_refl, Ha | apply F64.lt_le, Hba].
    + assert (fle b a) by (apply F64.not_lt_le; auto).
      assert (fle a b) by (apply F64.not_lt_le; auto).
      destruct (get_sign a); (split; [auto|]); split;
        auto using F64.le_refl.
Qed.

Lemma Math_min_spec a b :
  is_nan a = false -> is_nan b = false ->
  (JS.Math_min a b = a \/ JS.Math_min a b = b) /\
  fle (JS.Math_min a b) a /\ fle (JS.Math_min a b) b.
Proof.
  intros Ha Hb. unfold JS.Math_min. rewrite Ha, Hb. simpl.
  destruct (a <? b) eqn:Hab.
  - split; [auto|]. split; [apply F64.le_refl, Ha | apply F64.lt_le, Hab].
  - destruct (b <? a) eqn:Hba.
    + split; [auto|]. split; [apply F64.lt_le, Hba | apply F64.le_refl, Hb].
    + assert (fle b a) by (apply F64.not_lt_le; auto).
      assert (fle a b) by (apply F64.not_lt_le; auto).
      destruct (get_sign a); (split; [auto|]); split;
        auto using F64.le_refl.
Qed.

Lemma Math_max_nan a b :
  is_nan (JS.Math_max a b) = is_nan a || is_nan b.
Proof.
  destruct (is_nan a) eqn:Ha; [unfold JS.Math_max; rewrite Ha; reflexivity|].
  destruct (is_nan b) eqn:Hb; [unfold JS.Math_max; rewrite Ha, Hb; reflexivity|].
  destruct (Math_max_spec a b Ha Hb) as [[-> | ->] _]; simpl; assumption.
Qed.

Lemma Math_min_nan a b :
  is_nan (JS.Math_min a b) = is_nan a || is_nan b.
Proof.
  destruct (is_nan a) eqn:Ha; [unfold JS.Math_min; rewrite Ha; reflexivity|].
  destruct (is_nan b) eqn:Hb; [unfold JS.Math_min; rewrite Ha, Hb; reflexivity|].
  destruct (Math_min_spec a b Ha Hb) as [[-> | ->] _]; simpl; assumption.
Qed.

Lemma clamp_is_nan n a b :
  is_nan (clamp n a b) = is_nan a || (is_nan b || is_nan n).
Proof. unfold clamp. rewrite Math_max_nan, Math_min_nan. reflexivity. Qed.

(** X1. [clamp(n, a, b)] is NaN exactly when one of its three arguments is;
    otherwise it is one of [n], [a], [b], it is never below [a], and it is
    never above [b] when the bounds are in order; with the bounds reversed
    it is the lower bound [a]. *)
Theorem clamp_general (n a b : float) :
  is_nan (clamp n a b) = is_nan a || (is_nan b || is_nan n) /\
  (is_nan n = false -> is_nan a = false -> is_nan b = false ->
   (clamp n a b = n \/ clamp n a b = a \/ clamp n a b = b) /\
   fle a (clamp n a b) /\
   (fle a b -> fle (clamp n a b) b) /\
   ((b <? a) = true -> clamp n a b = a)).
Proof.
  split; [apply clamp_is_nan|]. unfold clamp.
  intros Hn Ha Hb.
  destruct (Math_min_spec b n Hb Hn) as (Hmin & Hminb & Hminn).
  assert (Hy : is_nan (JS.Math_min b n) = false) by (rewrite Math_min_nan, Hb, Hn; reflexivity).
  destruct (Math_max_spec a (JS.Math_min b n) Ha Hy) as (Hmax & Hmaxa & Hmaxy).
  split; [|split; [exact Hmaxa|split]].
  - destruct Hmax as [->| ->]; [auto|]. destruct Hmin as [->| ->]; auto.
  - intros Hab. destruct Hmax as [->| ->]; [exact Hab | exact Hminb].
  - intros Hba. destruct Hmax as [E|E]; [exact E|].
    assert (Hle : fle a b).
    { rewrite E in Hmaxa. apply F64.le_trans with (JS.Math_min b n); assumption. }
    apply le_not_lt in Hle. congruence.
Qed.

Lemma clamp_general_witness :
  is_nan 3.5 = false /\ is_nan 1.3 = false /\ is_nan 2.8 = false /\
  fle 1.3 (clamp 3.5 1.3 2.8) /\ clamp 3.5 2.8 1.3 = 2.8.
Proof.
  destruct (proj2 (clamp_general 3.5 1.3 2.8) eq_refl eq_refl eq_refl) as (_ & H & _).
  destruct (proj2 (clamp_general 3.5 2.8 1.3) eq_refl eq_refl eq_refl) as (_ & _ & _ & H').
  split; [reflexivity|]. split; [reflexivity|]. split; [reflexivity|].
  split; [exact H | apply H'; reflexivity].
Defined.

(** ** [clamp] on values within the scheduler's bounds *)

Lemma lexcmp_Eq e1 m1 e2 m2 : lexcmp e1 m1 e2 m2 = Eq -> e1 = e2 /\ m1 = m2.
Proof.
  unfold lexcmp. destruct (Z.compare_spec e1 e2) as [->| |]; try discriminate.
  intros H. apply Pos.compare_eq in H. auto.
Qed.

Lemma SFcompare_Eq_finite s m e y :
  SFcompare (S754_finite s m e) y = Some Eq -> y = S754_finite s m e.
Proof.
  destruct y as [[]|[]| |s' m' e']; try (destruct s; discriminate).
  rewrite SF.SFcompare_finite. intros H.
  destruct s, s'; try discriminate; injection H as H.
  - destruct (lexcmp e m e' m') eqn:E; try discriminate.
    apply lexcmp_Eq in E as [-> ->]. reflexivity.
  - apply lexcmp_Eq in H as [-> ->]. reflexivity.
Qed.

(** A number that is at least the finite, non-zero [a] and not above it is
    [a] itself. *)
Lemma le_not_lt_eq a x :
  finite64 a -> fle a x -> (a <? x) = false -> x = a.
Proof.
  intros (s & m & e & Ha). unfold fle.
  rewrite FloatAxioms.leb_spec, FloatAxioms.ltb_spec, Ha. unfold SFleb, SFltb.
  destruct (SFcompare (S754_finite s m e) (Prim2SF x)) as [[]|] eqn:E;
    try discriminate. intros _ _.
  apply SFcompare_Eq_finite in E. apply Prim2SF_inj. congruence.
Qed.

Lemma finite_1_3 : finite64 1.3.
Proof. unfold finite64. rewrite F64.Prim2SF_1_3. eauto. Qed.

Lemma clamp_valid e : ease_ok e -> clamp e 1.3 2.8 = e.
Proof.
  intros [Hlo Hhi]. rewrite clamp_unfold by (apply (F64.le_not_nan _ _ Hlo)).
  cbv zeta. rewrite (le_not_lt _ _ Hhi).
  destruct (1.3 <? e) eqn:H; [reflexivity|].
  symmetry. apply le_not_lt_eq; auto using finite_1_3.
Qed.

(** X2. The scheduler's clamp changes nothing within the bounds and is
    idempotent; so a review whose raised or lowered ease is still within
    [1.3, 2.8] stores exactly that ease, and a review of a card whose stored
    ease is NaN stores NaN again. *)
Theorem clamp_only_at_bounds (c : Card.t) (now : float) :
  (forall e, ease_ok e -> clamp e 1.3 2.8 = e) /\
  (forall x, clamp (clamp x 1.3 2.8) 1.3 2.8 = clamp x 1.3 2.8) /\
  (ease_ok (Card.ease c + 0.1) ->
   Card.ease (schedule now c true) = Card.ease c + 0.1) /\
  (ease_ok (Card.ease c - 0.2) ->
   Card.ease (schedule now c false) = Card.ease c - 0.2) /\
  (is_nan (Card.ease c) = true ->
   forall correct, is_nan (Card.ease (schedule now c correct)) = true).
Proof.
  split; [exact clamp_valid|]. split.
  - intros x. destruct (is_nan x) eqn:Hx.
    + rewrite (clamp_nan x Hx). reflexivity.
    + apply clamp_valid, clamp_bounds, Hx.
  - split; [intros H; rewrite schedule_ease; apply clamp_valid, H|].
    split; [intros H; rewrite schedule_ease; apply clamp_valid, H|].
    intros Hnan correct. rewrite schedule_ease.
    rewrite clamp_is_nan.
    assert (Hs : forall y, is_nan (Card.ease c + y) = true /\ is_nan (Card.ease c - y) = true).
    { intros y. rewrite !F64.is_nan_spec, FloatAxioms.add_spec, FloatAxioms.sub_spec.
      apply F64.is_nan_spec in Hnan. rewrite Hnan. split; reflexivity. }
    destruct correct; [rewrite (proj1 (Hs 0.1)) | rewrite (proj2 (Hs 0.2))]; reflexivity.
Qed.

Lemma clamp_only_at_bounds_witness :
  ease_ok (Card.ease freshCard + 0.1) /\
  Card.ease (schedule 0 freshCard true) = Card.ease freshCard + 0.1.
Proof.
  assert (H : ease_ok (Card.ease freshCard + 0.1)) by (split; reflexivity).
  split; [exact H|].
  destruct (clamp_only_at_bounds freshCard 0) as (_ & _ & Hup & _). exact (Hup H).
Defined.

(** ** Lowering the ease *)

Module F64Sub.
Local Open Scope Z_scope.

(** Rounding a mantissa of [d >= 53] binary digits in the normal range,
    with both bounds: either the exponent is [E + d - 53] and the mantissa
    is the truncated one or its successor, or the rounding carried into the
    next binade. *)
Lemma binary_round_aux_normal_cases sx p E d :
  Zdigits2 (Z.pos p) = d -> 53 <= d -> -1074 <= E -> E + d <= 1023 ->
  exists m' e',
    binary_round_aux prec emax sx (Z.pos p) E loc_Exact = S754_finite sx m' e' /\
    ((e' = E + d - 53 /\
      Z.pos p / 2 ^ (d - 53) <= Z.pos m' <= Z.pos p / 2 ^ (d - 53) + 1 /\
      Z.pos m' < 2 ^ 53) \/
     (e' = E + d - 53 + 1 /\ Z.pos m' = 2 ^ 52 /\
      Z.pos p / 2 ^ (d - 53) = 2 ^ 53 - 1)).
Proof.
  intros Hd Hd53 HE Hov.
  destruct (SF.binary_round_aux_spec sx p E) as (r1 & Hr1 & ->).
  rewrite Hd in *.
  assert (Hn1 : Z.max 0 (fexp prec emax (d + E) - E) = d - 53).
  { unfold fexp, SpecFloat.emin, prec, emax. lia. }
  rewrite Hn1 in *.
  pose proof (SF.Zdigits2_bounds p) as Hb. rewrite Hd in Hb.
  assert (H52 : 2 ^ 52 <= Z.pos p / 2 ^ (d - 53) < 2 ^ 53).
  { assert (0 < 2 ^ (d - 53)) by (apply Z.pow_pos_nonneg; lia).
    split.
    - apply Z.div_le_lower_bound; [lia|].
      rewrite <- Z.pow_add_r by lia. replace (d - 53 + 52) with (d - 1) by lia. lia.
    - apply Z.div_lt_upper_bound; [lia|].
      rewrite <- Z.pow_add_r by lia. replace (d - 53 + 53) with d by lia. lia. }
  destruct (Z_lt_le_dec r1 (2 ^ 53)) as [Hlt|Hge].
  - rewrite (SF.Zdigits2_eq r1 53) by lia.
    replace (Z.max 0 (fexp prec emax (53 + (E + (d - 53))) - (E + (d - 53)))) with 0
      by (unfold fexp, SpecFloat.emin, prec, emax; lia).
    rewrite Z.pow_0_r, Z.div_1_r.
    destruct r1 as [|m'|m']; try lia.
    replace (E + (d - 53) + 0 <=? emax - prec) with true
      by (symmetry; apply Z.leb_le; unfold prec, emax; lia).
    exists m', (E + (d - 53) + 0). split; [reflexivity|]. left. lia.
  - assert (r1 = 2 ^ 53) by lia. subst r1.
    rewrite (SF.Zdigits2_eq (2 ^ 53) 54) by (change (2 ^ (54 - 1)) with (2 ^ 53);
      change (2 ^ 53) with 9007199254740992; change (2 ^ 54) with 18014398509481984; lia).
    replace (Z.max 0 (fexp prec emax (54 + (E + (d - 53))) - (E + (d - 53)))) with 1
      by (unfold fexp, SpecFloat.emin, prec, emax; lia).
    change (2 ^ 53 / 2 ^ 1) with (Z.pos (2 ^ 52)%positive).
    replace (E + (d - 53) + 1 <=? emax - prec) with true
      by (symmetry; apply Z.leb_le; unfold prec, emax; lia).
    exists (2 ^ 52)%positive, (E + (d - 53) + 1). split; [reflexivity|]. right.
    split; [lia|]. split; [reflexivity|]. lia.
Qed.

(** The rounded value of an exact difference is at most a normal number
    that exceeds it by a unit of the result's last place. *)
Lemma round_le m ex P E :
  53 <= Zdigits2 (Z.pos P) -> -1074 <= E -> E + Zdigits2 (Z.pos P) <= 1023 ->
  2 ^ 52 <= Z.pos m < 2 ^ 53 ->
  (E + Zdigits2 (Z.pos P) - 53 < ex \/
   (ex = E + Zdigits2 (Z.pos P) - 53 /\
    Z.pos P / 2 ^ (Zdigits2 (Z.pos P) - 53) + 1 <= Z.pos m)) ->
  SFleb (binary_round prec emax false P E) (S754_finite false m ex) = true.
Proof.
  intros Hd HE Hov Hm Hcase. rewrite F64.binary_round_normal by assumption.
  destruct (binary_round_aux_normal_cases false P E _ eq_refl Hd HE Hov)
    as (m' & e' & -> & Hres).
  apply SF.SFleb_finite. unfold lexcmp.
  destruct (Z.compare_spec e' ex) as [->|Hlt|Hgt]; try discriminate.
  - apply Pos.compare_le_iff.
    assert (Z.pos m' <= Z.pos m); [|lia].
    destruct Hres as [(He & Hm' & _)|(He & Hm' & _)]; lia.
  - exfalso. destruct Hres as [(He & Hm' & _)|(He & Hm' & Hc)]; lia.
Qed.

Lemma SF64sub_0_2_lo m :
  SF64sub (S754_finite false m (-52)) (S754_finite false 7205759403792794 (-55))
  = binary_normalize prec emax (Z.pos m~0~0~0 - 7205759403792794) (-55) false.
Proof. reflexivity. Qed.

Lemma SF64sub_0_2_hi m :
  SF64sub (S754_finite false m (-51)) (S754_finite false 7205759403792794 (-55))
  = binary_normalize prec emax (Z.pos m~0~0~0~0 - 7205759403792794) (-55) false.
Proof. reflexivity. Qed.
End F64Sub.

Lemma SF_sub_0_2_le_lo m :
  (5854679515581645 <= Z.pos m < 9007199254740992)%Z ->
  SFleb (SF64sub (S754_finite false m (-52)) (S754_finite false 7205759403792794 (-55)))
        (S754_finite false m (-52)) = true.
Proof.
  intros Hm. rewrite F64Sub.SF64sub_0_2_lo.
  destruct (Z.pos m~0~0~0 - 7205759403792794)%Z as [|P|P] eqn:HP; try lia.
  assert (HP' : (Z.pos P = 8 * Z.pos m - 7205759403792794)%Z) by lia.
  assert (Hd : Zdigits2 (Z.pos P) = 56%Z).
  { apply SF.Zdigits2_eq; [lia|].
    change (2 ^ (56 - 1))%Z with 36028797018963968%Z.
    change (2 ^ 56)%Z with 72057594037927936%Z. lia. }
  change (binary_normalize prec emax (Z.pos P) (-55) false)
    with (binary_round prec emax false P (-55)).
  apply F64Sub.round_le; rewrite ?Hd; try lia.
  right. split; [reflexivity|]. change (2 ^ (56 - 53))%Z with 8%Z.
  assert (Z.pos P / 8 <= Z.pos m - 1)%Z; [|lia].
  apply Z.lt_succ_r, Z.div_lt_upper_bound; lia.
Qed.

Lemma SF_sub_0_2_le_hi m :
  (4503599627370496 <= Z.pos m <= 6305039478318694)%Z ->
  SFleb (SF64sub (S754_finite false m (-51)) (S754_finite false 7205759403792794 (-55)))
        (S754_finite false m (-51)) = true.
Proof.
  intros Hm. rewrite F64Sub.SF64sub_0_2_hi.
  destruct (Z.pos m~0~0~0~0 - 7205759403792794)%Z as [|P|P] eqn:HP; try lia.
  assert (HP' : (Z.pos P = 16 * Z.pos m - 7205759403792794)%Z) by lia.
  change (binary_normalize prec emax (Z.pos P) (-55) false)
    with (binary_round prec emax false P (-55)).
  destruct (Z_lt_le_dec (Z.pos P) 72057594037927936) as [Hlt|Hge].
  - assert (Hd : Zdigits2 (Z.pos P) = 56%Z).
    { apply SF.Zdigits2_eq; [lia|].
      change (2 ^ (56 - 1))%Z with 36028797018963968%Z.
      change (2 ^ 56)%Z with 72057594037927936%Z. lia. }
    apply F64Sub.round_le; rewrite ?Hd; try lia.
  - assert (Hd : Zdigits2 (Z.pos P) = 57%Z).
    { apply SF.Zdigits2_eq; [lia|].
      change (2 ^ (57 - 1))%Z with 72057594037927936%Z.
      change (2 ^ 57)%Z with 144115188075855872%Z. lia. }
    apply F64Sub.round_le; rewrite ?Hd; try lia.
    right. split; [reflexivity|]. change (2 ^ (57 - 53))%Z with 16%Z.
    assert (Z.pos P / 16 <= Z.pos m - 1)%Z; [|lia].
    apply Z.lt_succ_r, Z.div_lt_upper_bound; lia.
Qed.

(** On the range of valid eases, subtracting 0.2 does not increase a number. *)
Lemma SF_sub_0_2_le x :
  valid_binary x = true ->
  SFleb (S754_finite false 5854679515581645 (-52)) x = true ->
  SFleb x (S754_finite false 6305039478318694 (-51)) = true ->
  SFleb (SF64sub x (S754_finite false 7205759403792794 (-55))) x = true.
Proof.
  intros Hv Hlo Hhi.
  destruct x as [[]|[]| |s m e]; try discriminate Hlo; try discriminate Hhi.
  destruct s; [discriminate Hlo|].
  apply SF.SFleb_finite in Hlo, Hhi. unfold lexcmp in Hlo, Hhi.
  destruct (Z.compare_spec (-52) e) as [He|He|He]; [| |exfalso; apply Hlo; reflexivity].
  - subst e. pose proof (F64.valid_normal _ _ Hv ltac:(lia)) as Hm.
    pose proof (Pos2Z.pos_le_pos _ _ (proj1 (Pos.compare_le_iff _ _) Hlo)) as Hlo'.
    apply SF_sub_0_2_le_lo. clear Hhi Hlo Hv. lia.
  - destruct (Z.compare_spec e (-51)) as [He'|He'|He']; [|lia|exfalso; apply Hhi; reflexivity].
    subst e. pose proof (F64.valid_normal _ _ Hv ltac:(lia)) as Hm.
    pose proof (Pos2Z.pos_le_pos _ _ (proj1 (Pos.compare_le_iff _ _) Hhi)) as Hhi'.
    apply SF_sub_0_2_le_hi. clear Hhi Hlo Hv. lia.
Qed.

Lemma sub_0_2_le e : fle 1.3 e -> fle e 2.8 -> fle (e - 0.2) e.
Proof.
  unfold fle. rewrite !FloatAxioms.leb_spec, FloatAxioms.sub_spec,
    F64.Prim2SF_0_2, F64.Prim2SF_1_3, F64.Prim2SF_2_8.
  apply SF_sub_0_2_le, Prim2SF_valid.
Qed.

(** What is not above a valid ease is clamped to something not above it. *)
Lemma clamp_le e x : ease_ok e -> fle x e -> fle (clamp x 1.3 2.8) e.
Proof.
  intros [Hlo Hhi] Hxe. destruct (F64.le_not_nan _ _ Hxe) as [Hx He].
  rewrite clamp_unfold by exact Hx. cbv zeta.
  rewrite (le_not_lt x 2.8) by (apply F64.le_trans with e; assumption).
  destruct (1.3 <? x); assumption.
Qed.

(** X3. An incorrect review never raises the ease of a card whose ease is
    within the bounds, and it never leaves the card with a higher ease than
    a correct review at the same point would. *)
Theorem incorrect_review_lowers_ease (c : Card.t) (now now' : float) :
  ease_ok (Card.ease c) ->
  fle (Card.ease (schedule now c false)) (Card.ease c) /\
  fle (Card.ease (schedule now c false)) (Card.ease (schedule now' c true)).
Proof.
  intros Hc.
  assert (H : fle (Card.ease (schedule now c false)) (Card.ease c)).
  { rewrite schedule_ease. apply clamp_le; [exact Hc|].
    destruct Hc. apply sub_0_2_le; assumption. }
  split; [exact H|].
  apply F64.le_trans with (Card.ease c); [exact H|].
  apply schedule_correct_ease_mono, Hc.
Qed.

Lemma incorrect_review_lowers_ease_witness :
  ease_ok (Card.ease freshCard) /\
  fle (Card.ease (schedule 0 freshCard false)) (Card.ease freshCard).
Proof.
  assert (H : ease_ok (Card.ease freshCard)) by (split; reflexivity).
  split; [exact H|]. exact (proj1 (incorrect_review_lowers_ease freshCard 0 0 H)).
Defined.

(** ** Scheduler: relearning *)

(** X4. After a lapse a card starts over: whatever its interval and ease
    were, an incorrect review followed by a correct one leaves it with an
    interval of one day, due one day after the second review, with one more
    lapse, and with its id, language, kind and texts untouched.  If its ease
    was within the bounds, the lapse did not raise it, and the correct
    answer that follows leaves it within the bounds and not below what the
    lapse left. *)
Theorem relearn_after_lapse (c : Card.t) (t1 t2 : float) :
  let c1 := schedule t1 c false in
  let c2 := schedule t2 c1 true in
  Card.intervalDays c2 = 1 /\
  Card.due c2 = t2 + 86400000 /\
  Card.lapses c2 = Card.lapses c + 1 /\
  Card.lastReviewed c2 = Some t2 /\
  (Card.id c2, Card.targetLang c2, Card.kind c2, Card.front c2, Card.back c2,
   Card.example c2, Card.exampleTranslation c2)
  = (Card.id c, Card.targetLang c, Card.kind c, Card.front c, Card.back c,
     Card.example c, Card.exampleTranslation c) /\
  (ease_ok (Card.ease c) ->
   ease_ok (Card.ease c2) /\
   fle (Card.ease c1) (Card.ease c) /\
   fle (Card.ease c1) (Card.ease c2)).
Proof.
  cbv zeta. do 5 (split; [reflexivity|]). intros Hc.
  assert (H1 : ease_ok (Card.ease (schedule t1 c false)))
    by (apply schedule_ease_ok, ease_ok_not_nan, Hc).
  split; [apply schedule_ease_ok, ease_ok_not_nan, H1|]. split.
  - rewrite schedule_ease. apply clamp_le; [exact Hc|].
    destruct Hc. apply sub_0_2_le; assumption.
  - apply schedule_correct_ease_mono, H1.
Qed.

Lemma relearn_after_lapse_witness :
  ease_ok (Card.ease hardCard) /\
  ease_ok (Card.ease (schedule 2000 (schedule 1000 hardCard false) true)) /\
  Card.intervalDays (schedule 2000 (schedule 1000 hardCard false) true) = 1.
Proof.
  assert (H : ease_ok (Card.ease hardCard)) by (split; reflexivity).
  destruct (relearn_after_lapse hardCard 1000 2000) as (Hi & _ & _ & _ & _ & He).
  split; [exact H|]. split; [exact (proj1 (He H)) | exact Hi].
Defined.

(** ** Pack loader: first load, completeness, unique keys *)

Lemma filter_all {A} (P : A -> Prop) `{!forall x, Decision (P x)} (l : list A) :
  (forall x, x ∈ l -> P x) -> filter P l = l.
Proof.
  induction l as [|a l IH]; intros Hl; [reflexivity|].
  rewrite filter_cons_True by (apply Hl; left).
  f_equal. apply IH. intros x Hx. apply Hl. right. exact Hx.
Qed.

Lemma newCards_length env lang V S :
  length (newCards env lang V S) = (length V + length S)%nat.
Proof. unfold newCards. rewrite length_app, !length_imap. reflexivity. Qed.

(** X5. Loading a pack into a deck that has no card of that language adds
    a card for every entry, vocabulary first, also for entries that repeat
    within the pack: the filter looks at the existing cards only.  In
    general the delta is a sublist of the candidates. *)
Theorem loadPack_first_load (existing : list Card.t) (env : Env.t) (lang : Lang)
    (V S : list PackEntry.t) :
  loadPack existing env lang V S `sublist_of` newCards env lang V S /\
  ((forall e, e ∈ existing -> Card.targetLang e <> lang) ->
   loadPack existing env lang V S = newCards env lang V S /\
   length (loadPack existing env lang V S) = (length V + length S)%nat /\
   Card.front <$> loadPack existing env lang V S = PackEntry.de <$> (V ++ S)) /\
  (forall v, length (loadPack [] env lang [v; v] []) = 2%nat).
Proof.
  split; [apply sublist_filter|]. split; [|reflexivity].
  intros Hlang.
  assert (E : loadPack existing env lang V S = newCards env lang V S).
  { unfold loadPack. apply filter_all. intros c Hc.
    rewrite elem_of_list_to_set. intros Hin.
    apply list_elem_of_fmap in Hin as (e & Hkey & He).
    apply cardKey_inj in Hkey as [Hl _].
    apply newCards_fresh in Hc as (_ & _ & _ & Hcl).
    apply (Hlang e He). congruence. }
  rewrite E. split; [reflexivity|]. split; [apply newCards_length|].
  unfold newCards. rewrite !fmap_app. f_equal; apply fmap_imap_const; reflexivity.
Qed.

Lemma loadPack_first_load_witness :
  (forall e, e ∈ @nil Card.t -> Card.targetLang e <> FR) /\
  length (loadPack [] sampleEnv FR (Pack.vocab (PACKS_API FR))
            (Pack.sentences (PACKS_API FR))) = 3%nat.
Proof.
  assert (H : forall e, e ∈ @nil Card.t -> Card.targetLang e <> FR).
  { intros e He. apply not_elem_of_nil in He. destruct He. }
  split; [exact H|].
  exact (proj1 (proj2 (proj1 (proj2 (loadPack_first_load [] sampleEnv FR
           (Pack.vocab (PACKS_API FR)) (Pack.sentences (PACKS_API FR)))) H))).
Defined.

(** X6. After a pack was loaded every entry of it has a card in the deck:
    a card of that language whose front is the source text of the entry. *)
Theorem loadPack_complete (existing : list Card.t) (env : Env.t) (lang : Lang)
    (V S : list PackEntry.t) (v : PackEntry.t) :
  v ∈ V ++ S ->
  exists c, c ∈ existing ++ loadPack existing env lang V S /\
            Card.targetLang c = lang /\ Card.front c = PackEntry.de v.
Proof.
  intros Hv.
  assert (Hk : entryKey lang v ∈ cardKey <$> newCards env lang V S).
  { rewrite newCards_keys. apply list_elem_of_fmap_2, Hv. }
  apply list_elem_of_fmap in Hk as (c & Hkey & Hc).
  assert (Hc' : Card.targetLang c = lang /\ Card.front c = PackEntry.de v).
  { apply (cardKey_inj c (candidate env lang vocab 0 v)). symmetry. exact Hkey. }
  destruct (decide (cardKey c ∈ cardKey <$> existing)) as [Hin|Hout].
  - apply list_elem_of_fmap in Hin as (e & Hke & He).
    exists e. split; [apply elem_of_app; left; exact He|].
    apply cardKey_inj in Hke as [Hl Hf]. destruct Hc'. split; congruence.
  - exists c. split; [|exact Hc'].
    apply elem_of_app. right. apply loadPack_elem. auto.
Qed.

Lemma loadPack_complete_witness :
  PackEntry.mk "Brot" "pain" ∈ Pack.vocab (PACKS_API FR) ++ Pack.sentences (PACKS_API FR) /\
  exists c, c ∈ [freshCard] ++ loadPack [freshCard] sampleEnv FR
                    (Pack.vocab (PACKS_API FR)) (Pack.sentences (PACKS_API FR)) /\
            Card.targetLang c = FR /\ Card.front c = "Brot".
Proof.
  assert (H : PackEntry.mk "Brot" "pain"
              ∈ Pack.vocab (PACKS_API FR) ++ Pack.sentences (PACKS_API FR)).
  { right. left. }
  split; [exact H|].
  exact (loadPack_complete [freshCard] sampleEnv FR _ _ _ H).
Defined.

Lemma entryKey_inj lang v1 v2 :
  entryKey lang v1 = entryKey lang v2 -> PackEntry.de v1 = PackEntry.de v2.
Proof.
  intros H.
  apply (cardKey_inj (candidate sampleEnv lang vocab 0 v1)
                     (candidate sampleEnv lang vocab 0 v2)) in H.
  exact (proj2 H).
Qed.

Lemma NoDup_entryKeys lang (l : list PackEntry.t) :
  NoDup (PackEntry.de <$> l) -> NoDup (entryKey lang <$> l).
Proof.
  induction l as [|v l IH]; simpl; intros H; [constructor|].
  apply NoDup_cons in H as [Hv Hl]. constructor; [|apply IH, Hl].
  intros Hin. apply Hv. apply list_elem_of_fmap in Hin as (v' & Hk & Hv').
  apply entryKey_inj in Hk. rewrite Hk. apply list_elem_of_fmap_2, Hv'.
Qed.

Lemma loadPack_NoDup existing env lang V S :
  NoDup (cardKey <$> existing) -> NoDup (PackEntry.de <$> (V ++ S)) ->
  NoDup (cardKey <$> (existing ++ loadPack existing env lang V S)).
Proof.
  intros Hex Hpack. rewrite fmap_app. apply NoDup_app. split; [exact Hex|]. split.
  - intros k Hk Hk'. apply list_elem_of_fmap in Hk' as (c & -> & Hc).
    apply loadPack_elem in Hc as [_ Hout]. exact (Hout Hk).
  - apply sublist_NoDup with (cardKey <$> newCards env lang V S).
    + rewrite newCards_keys. apply NoDup_entryKeys, Hpack.
    + apply fmap_sublist, sublist_filter.
Qed.

Lemma packEntries_NoDup l : NoDup (PackEntry.de <$> packEntries l).
Proof. apply (bool_decide_unpack _). destruct l; vm_compute; reflexivity. Qed.

(** X7. The loader keeps the (language, front) keys of the deck unique: if
    no two existing cards share a key and no source text occurs twice in the
    pack, no two cards share a key after the load.  The four packs of
    [PACKS_API] have no repeated source text. *)
Theorem loadPack_keys_unique (existing : list Card.t) (env : Env.t) (lang : Lang)
    (V S : list PackEntry.t) :
  (NoDup (cardKey <$> existing) -> NoDup (PackEntry.de <$> (V ++ S)) ->
   NoDup (cardKey <$> (existing ++ loadPack existing env lang V S))) /\
  (forall l, NoDup (PackEntry.de <$> packEntries l)).
Proof.
  split; [apply loadPack_NoDup | apply packEntries_NoDup].
Qed.

Lemma loadPack_keys_unique_witness :
  NoDup (cardKey <$> [freshCard]) /\
  NoDup (cardKey <$> ([freshCard] ++ loadPack [freshCard] sampleEnv EN
                        (Pack.vocab (PACKS_API EN)) (Pack.sentences (PACKS_API EN)))).
Proof.
  assert (H : NoDup (cardKey <$> [freshCard])) by (apply NoDup_singleton).
  split; [exact H|].
  apply (proj1 (loadPack_keys_unique [freshCard] sampleEnv EN _ _) H).
  apply (proj2 (loadPack_keys_unique [] sampleEnv EN [] []) EN).
Defined.

(** ** Choosing and reviewing the next card *)

Lemma head_filter_Some {A} (P : A -> Prop) `{!forall x, Decision (P x)} (l : list A) x :
  head (filter P l) = Some x <->
  exists l1 l2, l = l1 ++ x :: l2 /\ P x /\ Forall (fun y => ~ P y) l1.
Proof.
  induction l as [|a l IH].
  - split; [discriminate|]. intros (l1 & l2 & E & _). destruct l1; discriminate.
  - rewrite filter_cons. destruct (decide (P a)) as [Ha|Ha].
    + simpl. split.
      * intros [= ->]. exists [], l. auto.
      * intros (l1 & l2 & E & Hx & Hl1). destruct l1 as [|b l1]; simpl in E.
        -- congruence.
        -- injection E as -> _. apply Forall_cons in Hl1 as [Hb _]. contradiction.
    + rewrite IH. split.
      * intros (l1 & l2 & -> & Hx & Hl1). exists (a :: l1), l2. auto.
      * intros (l1 & l2 & E & Hx & Hl1). destruct l1 as [|b l1]; simpl in E.
        -- injection E as -> _. contradiction.
        -- injection E as -> ->. apply Forall_cons in Hl1 as [_ Hl1]. eauto.
Qed.

Lemma head_filter_None {A} (P : A -> Prop) `{!forall x, Decision (P x)} (l : list A) :
  head (filter P l) = None <-> Forall (fun y => ~ P y) l.
Proof.
  induction l as [|a l IH]; [split; [constructor|reflexivity]|].
  rewrite filter_cons. destruct (decide (P a)) as [Ha|Ha]; simpl.
  - split; [discriminate|]. intros Hf. apply Forall_cons in Hf as [Hf _]. contradiction.
  - rewrite IH. split; [constructor; assumption|].
    intros Hf. apply Forall_cons in Hf as [_ Hf]. exact Hf.
Qed.

Lemma readings_in L a l :
  Card.targetLang a = L -> readings L (a :: l) = S (readings L l).
Proof.
  intros H. unfold readings. rewrite filter_cons.
  destruct (decide (Card.targetLang a = L)); [reflexivity | contradiction].
Qed.

Lemma readings_out L a l :
  Card.targetLang a <> L -> readings L (a :: l) = readings L l.
Proof.
  intros H. unfold readings. rewrite filter_cons.
  destruct (decide (Card.targetLang a = L)); [contradiction | reflexivity].
Qed.

(** The first card the filter keeps, when it starts with reading number
    [k]. *)
Lemma dueFilter_head_Some L clock l : forall k c,
  head (dueFilter L clock k l) = Some c <->
  exists l1 l2,
    l = l1 ++ c :: l2 /\
    (Card.targetLang c = L /\ (Card.due c <=? clock (k + readings L l1)%nat) = true) /\
    forall l1' c' l2', l1 = l1' ++ c' :: l2' ->
      ~ (Card.targetLang c' = L /\
         (Card.due c' <=? clock (k + readings L l1')%nat) = true).
Proof.
  induction l as [|a l IH]; intros k c.
  - split; [discriminate|]. intros (l1 & l2 & E & _). destruct l1; discriminate E.
  - cbn [dueFilter]. destruct (decide (Card.targetLang a = L)) as [Ha|Ha].
    + destruct (Card.due a <=? clock k) eqn:Hdue.
      * cbn [head]. split.
        -- intros [= <-]. exists [], l. split; [reflexivity|].
           split; [split; [exact Ha|]|].
           ++ change (readings L []) with 0%nat. rewrite Nat.add_0_r. exact Hdue.
           ++ intros l1' c' l2' E. destruct l1'; discriminate E.
        -- intros (l1 & l2 & E & _ & Hfirst). destruct l1 as [|b l1].
           ++ injection E as ->. reflexivity.
           ++ injection E as <- _. exfalso. apply (Hfirst [] a l1 eq_refl).
              split; [exact Ha|]. change (readings L []) with 0%nat.
              rewrite Nat.add_0_r. exact Hdue.
      * rewrite IH. split.
        -- intros (l1 & l2 & -> & [Hc Hd] & Hfirst). exists (a :: l1), l2.
           split; [reflexivity|]. split.
           ++ split; [exact Hc|]. rewrite readings_in by exact Ha.
              rewrite Nat.add_succ_r. exact Hd.
           ++ intros l1' c' l2' E. destruct l1' as [|b l1'].
              ** injection E as <- _. intros [_ Hd'].
                 change (readings L []) with 0%nat in Hd'.
                 rewrite Nat.add_0_r in Hd'. congruence.
              ** injection E as <- ->. rewrite readings_in by exact Ha.
                 rewrite Nat.add_succ_r. apply (Hfirst l1' c' l2' eq_refl).
        -- intros (l1 & l2 & E & [Hc Hd] & Hfirst). destruct l1 as [|b l1].
           ++ injection E as -> _. change (readings L []) with 0%nat in Hd.
              rewrite Nat.add_0_r in Hd. congruence.
           ++ injection E as <- ->. exists l1, l2. split; [reflexivity|].
              rewrite readings_in, Nat.add_succ_r in Hd by exact Ha.
              split; [split; assumption|].
              intros l1' c' l2' ->. specialize (Hfirst (a :: l1') c' l2' eq_refl).
              rewrite readings_in, Nat.add_succ_r in Hfirst by exact Ha.
              exact Hfirst.
    + rewrite IH. split.
      * intros (l1 & l2 & -> & [Hc Hd] & Hfirst). exists (a :: l1), l2.
        split; [reflexivity|]. split.
        -- split; [exact Hc|]. rewrite readings_out by exact Ha. exact Hd.
        -- intros l1' c' l2' E. destruct l1' as [|b l1'].
           ++ injection E as <- _. intros [Hc' _]. contradiction.
           ++ injection E as <- ->. rewrite readings_out by exact Ha.
              apply (Hfirst l1' c' l2' eq_refl).
      * intros (l1 & l2 & E & [Hc Hd] & Hfirst). destruct l1 as [|b l1].
        -- injection E as -> _. contradiction.
        -- injection E as <- ->. exists l1, l2. split; [reflexivity|].
           rewrite readings_out in Hd by exact Ha.
           split; [split; assumption|].
           intros l1' c' l2' ->. specialize (Hfirst (a :: l1') c' l2' eq_refl).
           rewrite readings_out in Hfirst by exact Ha. exact Hfirst.
Qed.

Lemma dueFilter_head_None L clock l : forall k,
  head (dueFilter L clock k l) = None <->
  forall l1 c l2, l = l1 ++ c :: l2 ->
    ~ (Card.targetLang c = L /\ (Card.due c <=? clock (k + readings L l1)%nat) = true).
Proof.
  induction l as [|a l IH]; intros k.
  - split; [|reflexivity]. intros _ l1 c l2 E. destruct l1; discriminate E.
  - cbn [dueFilter]. destruct (decide (Card.targetLang a = L)) as [Ha|Ha].
    + destruct (Card.due a <=? clock k) eqn:Hdue.
      * split; [discriminate|]. intros H. exfalso. apply (H [] a l eq_refl).
        split; [exact Ha|]. change (readings L []) with 0%nat.
        rewrite Nat.add_0_r. exact Hdue.
      * rewrite IH. split.
        -- intros H l1 c l2 E. destruct l1 as [|b l1].
           ++ injection E as <- _. intros [_ Hd].
              change (readings L []) with 0%nat in Hd.
              rewrite Nat.add_0_r in Hd. congruence.
           ++ injection E as <- ->. rewrite readings_in, Nat.add_succ_r by exact Ha.
              apply (H l1 c l2 eq_refl).
        -- intros H l1 c l2 ->. specialize (H (a :: l1) c l2 eq_refl).
           rewrite readings_in, Nat.add_succ_r in H by exact Ha. exact H.
    + rewrite IH. split.
      * intros H l1 c l2 E. destruct l1 as [|b l1].
        -- injection E as <- _. intros [Hc _]. contradiction.
        -- injection E as <- ->. rewrite readings_out by exact Ha.
           apply (H l1 c l2 eq_refl).
      * intros H l1 c l2 ->. specialize (H (a :: l1) c l2 eq_refl).
        rewrite readings_out in H by exact Ha. exact H.
Qed.

(** With a clock that shows the same time at every reading the filter is
    the plain one. *)
Lemma dueFilter_constant L now l : forall k,
  dueFilter L (fun _ => now) k l =
  filter (fun c => Card.targetLang c = L ∧ (Card.due c <=? now) = true) l.
Proof.
  induction l as [|a l IH]; intros k; [reflexivity|].
  cbn [dueFilter]. rewrite filter_cons.
  destruct (decide (Card.targetLang a = L)) as [Ha|Ha].
  - destruct (Card.due a <=? now) eqn:Hdue.
    + destruct (decide (Card.targetLang a = L ∧ true = true)) as [_|Hn].
      * rewrite IH. reflexivity.
      * exfalso. apply Hn. auto.
    + destruct (decide (Card.targetLang a = L ∧ false = true)) as [[_ Hf]|_].
      * discriminate Hf.
      * apply IH.
  - destruct (decide (Card.targetLang a = L ∧ (Card.due a <=? now) = true))
      as [[Hc _]|_]; [contradiction | apply IH].
Qed.

(** X8. The card put up for review is the first card of the deck, in deck
    order, that belongs to the current course and is due at the clock
    reading the filter takes when it comes to it - one reading for each
    card of the course, none for the cards of other languages: every card
    before it is of another language or was not yet due at its own reading.
    There is none exactly when no card of the deck is due at its reading; a
    card whose due date is NaN is never due.  When the clock shows the same
    time throughout the render, the cards kept are those due at that
    time. *)
Theorem nextCard_first_due (clock : nat -> float) (d : AppData.t) :
  (forall c, nextCardAt clock d = Some c <->
     exists l1 l2, AppData.cards d = l1 ++ c :: l2 /\ dueAt clock d l1 c /\
                   forall l1' c' l2', l1 = l1' ++ c' :: l2' -> ~ dueAt clock d l1' c') /\
  (nextCardAt clock d = None <->
     forall l1 c l2, AppData.cards d = l1 ++ c :: l2 -> ~ dueAt clock d l1 c) /\
  (forall l c, is_nan (Card.due c) = true -> ~ dueAt clock d l c) /\
  (forall now, dueCardsAt (fun _ => now) d = dueCards now d /\
               nextCardAt (fun _ => now) d = nextCard now d).
Proof.
  split; [|split; [|split]].
  - intros c. apply (dueFilter_head_Some _ clock (AppData.cards d) 0 c).
  - apply (dueFilter_head_None _ clock (AppData.cards d) 0).
  - intros l c Hnan [_ Hdue].
    assert (H := F64.le_not_nan _ _ Hdue). destruct H as [H _]. congruence.
  - intros now.
    assert (E : dueCardsAt (fun _ => now) d = dueCards now d)
      by apply dueFilter_constant.
    split; [exact E|]. unfold nextCardAt, nextCard. rewrite E. reflexivity.
Qed.

Lemma nextCard_first_due_witness :
  exists b l1 l2,
    Card.id b = "b" /\
    nextCardAt tickClock tickData = Some b /\
    AppData.cards tickData = l1 ++ b :: l2 /\
    dueAt tickClock tickData l1 b /\
    nextCard 1000 tickData = None /\
    (Card.id <$> nextCard 1001 tickData) = Some "a".
Proof.
  assert (E : nextCardAt tickClock tickData
              = Some (Card.mk "b" EN vocab "Buch" "book" None None 1001 0 2.0 0 None))
    by (vm_compute; reflexivity).
  destruct (proj1 (proj1 (nextCard_first_due tickClock tickData) _) E)
    as (l1 & l2 & H1 & H2 & _).
  eexists _, l1, l2. split; [|split; [exact E|split; [exact H1|split; [exact H2|]]]].
  - reflexivity.
  - split; vm_compute; reflexivity.
Defined.

Lemma handleReview_next rendered now today correct d next :
  nextCard rendered d = Some next ->
  handleReview rendered now today correct (Some d) =
  Some (recordReview (Profile.targetLang (AppData.profile d)) today correct
          (reviewCard now correct next <$> AppData.cards d) d).
Proof. intros H. unfold handleReview. rewrite H. reflexivity. Qed.

(** X9. Answering when nothing is due changes nothing: with no state, with
    an empty deck, or with a deck none of whose cards is due in the current
    course, [handleReview] returns the state as it is - no xp, no statistics. *)
Theorem handleReview_nothing_due (rendered now : float) (today : string)
    (correct : bool) (d : AppData.t) :
  handleReview rendered now today correct None = None /\
  (AppData.cards d = [] -> handleReview rendered now today correct (Some d) = Some d) /\
  (Forall (fun c => ~ isDue rendered d c) (AppData.cards d) ->
   handleReview rendered now today correct (Some d) = Some d).
Proof.
  split; [reflexivity|].
  assert (H : Forall (fun c => ~ isDue rendered d c) (AppData.cards d) ->
              handleReview rendered now today correct (Some d) = Some d).
  { intros Hall. apply (head_filter_None (isDue rendered d)) in Hall.
    change (nextCard rendered d = None) in Hall.
    unfold handleReview. rewrite Hall. reflexivity. }
  split; [|exact H]. intros E. apply H. rewrite E. constructor.
Qed.

Lemma fmap_fmap_same {A B} (f : A -> A) (g : A -> B) (l : list A) :
  (forall x, g (f x) = g x) -> g <$> (f <$> l) = g <$> l.
Proof.
  intros Hg. induction l as [|a l IH]; [reflexivity|].
  rewrite !fmap_cons, Hg, IH. reflexivity.
Qed.

Lemma reviewCard_id now correct next c :
  Card.id (reviewCard now correct next c) = Card.id c.
Proof. unfold reviewCard. destruct (String.eqb _ _); reflexivity. Qed.

Lemma reviewCard_key now correct next c :
  cardKey (reviewCard now correct next c) = cardKey c.
Proof. unfold reviewCard. destruct (String.eqb _ _); reflexivity. Qed.

Lemma reviewCard_same now correct next c :
  Card.id c = Card.id next -> reviewCard now correct next c = schedule now c correct.
Proof. intros E. unfold reviewCard. rewrite E, String.eqb_refl. reflexivity. Qed.

Lemma reviewCard_other now correct next c :
  Card.id c <> Card.id next -> reviewCard now correct next c = c.
Proof.
  intros E. unfold reviewCard.
  destruct (String.eqb_spec (Card.id c) (Card.id next)); [contradiction|reflexivity].
Qed.

(** X10. A review keeps the deck in place: the same number of cards with the
    same ids and the same (language, front) keys in the same order; the
    cards whose id is not that of the chosen card are untouched, and every
    card with that id is rescheduled.  When the ids of the deck are distinct,
    exactly the chosen card is replaced by its rescheduled version. *)
Theorem handleReview_deck (rendered now : float) (today : string) (correct : bool)
    (d : AppData.t) (next : Card.t) :
  nextCard rendered d = Some next ->
  exists st,
    handleReview rendered now today correct (Some d) = Some st /\
    length (AppData.cards st) = length (AppData.cards d) /\
    Card.id <$> AppData.cards st = Card.id <$> AppData.cards d /\
    cardKey <$> AppData.cards st = cardKey <$> AppData.cards d /\
    (forall (i : nat) c, AppData.cards d !! i = Some c ->
       AppData.cards st !! i =
       Some (if decide (Card.id c = Card.id next) then schedule now c correct else c)) /\
    (NoDup (Card.id <$> AppData.cards d) ->
     exists i : nat, AppData.cards d !! i = Some next /\
       AppData.cards st = <[i := schedule now next correct]> (AppData.cards d)).
Proof.
  intros Hnext. eexists. split; [apply handleReview_next, Hnext|].
  cbn [recordReview AppData.cards].
  split; [apply length_fmap|].
  split; [apply fmap_fmap_same, reviewCard_id|].
  split; [apply fmap_fmap_same, reviewCard_key|].
  assert (Hlook : forall (i : nat) c, AppData.cards d !! i = Some c ->
    (reviewCard now correct next <$> AppData.cards d) !! i =
    Some (if decide (Card.id c = Card.id next) then schedule now c correct else c)).
  { intros i c Hc. rewrite list_lookup_fmap, Hc. simpl. f_equal.
    destruct (decide (Card.id c = Card.id next)) as [E|E];
      [apply reviewCard_same, E | apply reviewCard_other, E]. }
  split; [exact Hlook|].
  intros Hids.
  assert (Hin : next ∈ AppData.cards d).
  { apply head_Some_elem_of in Hnext. apply list_elem_of_filter in Hnext as [_ H]. exact H. }
  apply list_elem_of_lookup in Hin as [i Hi]. exists i. split; [exact Hi|].
  apply list_eq. intros j. rewrite list_lookup_insert.
  destruct (AppData.cards d !! j) as [c|] eqn:Hj.
  - rewrite (Hlook j c Hj).
    destruct (decide (i = j ∧ i < length (AppData.cards d))) as [[-> _]|Hne].
    + rewrite Hi in Hj. injection Hj as <-. rewrite decide_True by reflexivity. reflexivity.
    + rewrite decide_False; [reflexivity|].
      intros E. apply Hne. split; [|apply (lookup_lt_Some _ _ _ Hi)].
      apply (NoDup_lookup _ i j (Card.id next) Hids);
        rewrite list_lookup_fmap; [rewrite Hi | rewrite Hj, <- E]; reflexivity.
  - rewrite list_lookup_fmap, Hj. simpl.
    rewrite decide_False; [reflexivity|].
    intros [-> _]. congruence.
Qed.

Lemma handleReview_deck_witness :
  exists d next st,
    sampleData = Some d /\
    nextCard 1704189600000 d = Some next /\
    handleReview 1704189600000 1704189600000 "2024-01-02" false (Some d) = Some st /\
    Card.id <$> AppData.cards st = Card.id <$> AppData.cards d /\
    length (AppData.cards st) = length (AppData.cards d).
Proof.
  set (d := default (initialData "2024-01-01" 0) sampleData).
  assert (Hn : nextCard 1704189600000 d
               = Some (candidate sampleEnv EN vocab 0 (PackEntry.mk "laufen" "to run")))
    by reflexivity.
  destruct (handleReview_deck 1704189600000 1704189600000 "2024-01-02" false d _ Hn)
    as (st & Hst & Hlen & Hids & _).
  exists d, (candidate sampleEnv EN vocab 0 (PackEntry.mk "laufen" "to run")), st.
  split; [reflexivity|]. split; [exact Hn|]. split; [exact Hst|].
  split; [exact Hids | exact Hlen].
Defined.

(** ** Invariants of a session *)

Lemma newCards_entry env lang V S c :
  c ∈ newCards env lang V S ->
  exists v, v ∈ V ++ S /\ Card.targetLang c = lang /\
            Card.front c = PackEntry.de v /\ Card.back c = PackEntry.x v /\
            Card.ease c = 2.0.
Proof.
  unfold newCards. rewrite elem_of_app, !elem_of_lookup_imap.
  intros [(i & v & -> & Hv)|(i & v & -> & Hv)]; exists v;
    (split; [apply elem_of_app|repeat split]);
    [left|right]; apply list_elem_of_lookup; eauto.
Qed.

Lemma handleReview_cases rendered now today correct d d' :
  handleReview rendered now today correct (Some d) = Some d' ->
  d' = d \/
  exists next,
    nextCard rendered d = Some next /\
    d' = recordReview (Profile.targetLang (AppData.profile d)) today correct
           (reviewCard now correct next <$> AppData.cards d) d.
Proof.
  destruct (nextCard rendered d) as [next|] eqn:Hn.
  - rewrite (handleReview_next _ _ _ _ _ _ Hn). intros [= <-]. right. eauto.
  - unfold handleReview. rewrite Hn. intros [= <-]. left. reflexivity.
Qed.

Lemma reviewCard_valid now correct next c :
  ease_ok (Card.ease c) /\ from_pack c ->
  ease_ok (Card.ease (reviewCard now correct next c)) /\
  from_pack (reviewCard now correct next c).
Proof.
  intros [He Hp]. unfold reviewCard. destruct (String.eqb _ _); [|auto].
  split; [apply schedule_ease_ok, ease_ok_not_nan, He | exact Hp].
Qed.

Lemma from_pack_key c : from_pack c -> cardKey c ∈ allPackKeys.
Proof.
  intros (v & Hv & Hf & _). unfold allPackKeys. apply list_elem_of_bind.
  exists (Card.targetLang c). split.
  - unfold cardKey. rewrite Hf. apply (list_elem_of_fmap_2 (entryKey (Card.targetLang c))), Hv.
  - clear. destruct (Card.targetLang c); repeat constructor.
Qed.

Lemma reachable_deck_inv today0 now0 d :
  reachable today0 now0 d ->
  NoDup (cardKey <$> AppData.cards d) /\
  Forall (fun c => ease_ok (Card.ease c) /\ from_pack c) (AppData.cards d).
Proof.
  induction 1 as [|env lang d d' Hd [IHk IHc] Hstep
                  |rendered now today correct d d' Hd [IHk IHc] Hstep].
  - split; constructor.
  - injection Hstep as <-. cbn [AppData.cards]. split.
    + apply loadPack_NoDup; [exact IHk | apply packEntries_NoDup].
    + apply Forall_app. split; [exact IHc|].
      apply Forall_forall. intros c Hc. apply loadPack_elem in Hc as [Hc _].
      apply newCards_entry in Hc as (v & Hv & Hl & Hf & Hb & He).
      split; [rewrite He; split; reflexivity|].
      exists v. rewrite Hl. auto.
  - apply handleReview_cases in Hstep as [->|(next & _ & ->)]; [auto|].
    cbn [recordReview AppData.cards]. split.
    + rewrite fmap_fmap_same by apply reviewCard_key. exact IHk.
    + apply Forall_fmap. eapply Forall_impl; [exact IHc|].
      intros c. apply reviewCard_valid.
Qed.

(** X11. Through every session that starts from the initial state and goes
    on by loading packs and answering reviews, no two cards of the deck have
    the same (language, front) pair, every card carries the texts of an
    entry of the pack of its language and an ease within [1.3, 2.8], and the
    deck never holds more than the 14 cards the four packs can give. *)
Theorem reachable_deck (today0 : string) (now0 : float) (d : AppData.t) :
  reachable today0 now0 d ->
  NoDup (cardKey <$> AppData.cards d) /\
  Forall (fun c => ease_ok (Card.ease c) /\ from_pack c) (AppData.cards d) /\
  (length (AppData.cards d) <= 14)%nat.
Proof.
  intros Hd. destruct (reachable_deck_inv today0 now0 d Hd) as [Hk Hc].
  split; [exact Hk|]. split; [exact Hc|].
  rewrite <- (length_fmap cardKey). change 14%nat with (length allPackKeys).
  apply submseteq_length, NoDup_submseteq; [exact Hk|].
  intros k Hin. apply list_elem_of_fmap in Hin as (c & -> & Hin).
  rewrite Forall_forall in Hc. apply from_pack_key, (Hc c Hin).
Qed.

Lemma reachable_deck_witness :
  exists d,
    sampleData = Some d /\ reachable "2024-01-01" 1704103200000 d /\
    (length (AppData.cards d) <= 14)%nat.
Proof.
  set (d := default (initialData "2024-01-01" 0) sampleData).
  assert (Hd : reachable "2024-01-01" 1704103200000 d).
  { apply (reachable_download _ _ sampleEnv EN (initialData "2024-01-01" 1704103200000));
      [apply reachable_initial | reflexivity]. }
  exists d. split; [reflexivity|]. split; [exact Hd|].
  exact (proj2 (proj2 (reachable_deck _ _ d Hd))).
Defined.

Lemma handleReview_nothing_due_witness :
  AppData.cards (initialData "2024-01-01" 0) = [] /\
  handleReview 5 5 "2024-01-01" true (Some (initialData "2024-01-01" 0))
  = Some (initialData "2024-01-01" 0).
Proof.
  split; [reflexivity|].
  exact (proj1 (proj2 (handleReview_nothing_due 5 5 "2024-01-01" true
                         (initialData "2024-01-01" 0))) eq_refl).
Defined.

(** The part of the state no operation of a session writes. *)
Lemma reachable_frozen_inv today0 now0 d :
  reachable today0 now0 d ->
  (let p := AppData.profile d in
   Profile.streak p = 0 /\ Profile.bestStreak p = 0 /\
   Profile.lastActiveDay p = today0 /\ Profile.createdAt p = now0 /\
   Profile.username p = "User" /\ Profile.nativeLang p = DE /\
   Profile.level p = BEGINNER /\ Profile.dailyGoal p = 10) /\
  AppData.achievements d = AppData.achievements (initialData today0 now0) /\
  (forall l day s, AppData.dailyStatsByLang d l !! day = Some s ->
     DailyStat.wrong s = 0 /\ DailyStat.minutes s = 0).
Proof.
  induction 1 as [|env lang d d' Hd IH Hstep
                  |rendered now today correct d d' Hd IH Hstep].
  - split; [repeat split|]. split; [reflexivity|]. intros l day s Hs.
    cbn in Hs. rewrite lookup_empty in Hs. discriminate.
  - injection Hstep as <-. exact IH.
  - apply handleReview_cases in Hstep as [->|(next & _ & ->)]; [exact IH|].
    destruct IH as (Hp & Ha & Hs). split; [exact Hp|]. split; [exact Ha|].
    intros l day s. unfold recordReview. cbn [AppData.dailyStatsByLang].
    destruct (decide (l = Profile.targetLang (AppData.profile d))) as [->|Hl];
      [|apply Hs].
    destruct (decide (today = day)) as [->|Hday].
    + rewrite lookup_insert_eq. intros [= <-]. cbn [bumpStat DailyStat.wrong DailyStat.minutes].
      destruct (AppData.dailyStatsByLang d (Profile.targetLang (AppData.profile d)) !! day)
        as [old|] eqn:Hold; [apply (Hs _ _ _ Hold) | split; reflexivity].
    + rewrite lookup_insert_ne by exact Hday. apply Hs.
Qed.

(** X12. What a session never writes: through every session that starts
    from the initial state and goes on by loading packs and answering
    reviews, [streak] and [bestStreak] stay 0, [lastActiveDay] and
    [createdAt] stay those of the start, the user name, level and daily goal
    stay the defaults, the achievements stay the initial list (unlocked
    never), and the [wrong] and [minutes] counters of every DailyStat stay 0. *)
Theorem reachable_never_written (today0 : string) (now0 : float) (d : AppData.t) :
  reachable today0 now0 d ->
  Profile.streak (AppData.profile d) = 0 /\
  Profile.bestStreak (AppData.profile d) = 0 /\
  Profile.lastActiveDay (AppData.profile d) = today0 /\
  Profile.createdAt (AppData.profile d) = now0 /\
  Profile.username (AppData.profile d) = "User" /\
  Profile.level (AppData.profile d) = BEGINNER /\
  Profile.dailyGoal (AppData.profile d) = 10 /\
  AppData.achievements d = AppData.achievements (initialData today0 now0) /\
  Forall (fun a => Achievement.unlockedAt a = None) (AppData.achievements d) /\
  (forall l day s, AppData.dailyStatsByLang d l !! day = Some s ->
     DailyStat.wrong s = 0 /\ DailyStat.minutes s = 0).
Proof.
  intros Hd.
  destruct (reachable_frozen_inv today0 now0 d Hd)
    as ((H1 & H2 & H3 & H4 & H5 & _ & H7 & H8) & Ha & Hs).
  repeat (split; [assumption|]). split; [|exact Hs].
  rewrite Ha. repeat constructor.
Qed.

Lemma reachable_never_written_witness :
  exists d st,
    sampleData = Some d /\
    handleReview 1704189600000 1704189600000 "2024-01-02" true (Some d) = Some st /\
    reachable "2024-01-01" 1704103200000 st /\
    Profile.streak (AppData.profile st) = 0 /\
    Profile.lastActiveDay (AppData.profile st) = "2024-01-01".
Proof.
  set (d := default (initialData "2024-01-01" 0) sampleData).
  set (st := default d (handleReview 1704189600000 1704189600000 "2024-01-02" true (Some d))).
  assert (Hst : handleReview 1704189600000 1704189600000 "2024-01-02" true (Some d) = Some st)
    by reflexivity.
  assert (Hr : reachable "2024-01-01" 1704103200000 st).
  { apply (reachable_review _ _ 1704189600000 1704189600000 "2024-01-02" true d st);
      [|exact Hst].
    apply (reachable_download _ _ sampleEnv EN (initialData "2024-01-01" 1704103200000));
      [apply reachable_initial | reflexivity]. }
  exists d, st. split; [reflexivity|]. split; [exact Hst|]. split; [exact Hr|].
  destruct (reachable_never_written _ _ st Hr) as (H1 & _ & H3 & _). auto.
Defined.

(** ** Loading, then reviewing *)

(** X13. The cards a load appends are up for review at once: each of them
    belongs to the course the load switched to and is due at every instant
    not before the clock readings of the load; so unless the load added
    nothing, a card is put up for review right after it. *)
Theorem loaded_cards_are_due (env : Env.t) (L : Lang) (prev : AppData.t)
    (rendered : float) :
  (forall i, fle (Env.Date_now env i) rendered) ->
  exists st delta,
    downloadLanguagePack env L (Some prev) = Some st /\
    AppData.cards st = AppData.cards prev ++ delta /\
    Forall (isDue rendered st) delta /\
    (delta <> [] -> exists next, nextCard rendered st = Some next).
Proof.
  intros Hclock. eexists _, _. split; [reflexivity|].
  cbn [AppData.cards]. split; [reflexivity|].
  match goal with |- Forall _ ?l /\ _ => set (delta := l) end.
  assert (Hdue : Forall (isDue rendered
    {| AppData.cards := AppData.cards prev ++ delta;
       AppData.profile := setTargetLang (AppData.profile prev) L;
       AppData.achievements := AppData.achievements prev;
       AppData.dailyStatsByLang := AppData.dailyStatsByLang prev |}) delta).
  { apply Forall_forall. intros c Hc. apply loadPack_elem in Hc as [Hc _].
    apply newCards_fresh in Hc as (i & _ & (Hd & _) & Hl).
    split; [exact Hl|]. cbn. rewrite Hd. apply Hclock. }
  split; [exact Hdue|]. intros Hne.
  match goal with |- exists next, nextCard _ ?st = _ =>
    destruct (nextCard rendered st) as [next|] eqn:Hn; [eauto|] end.
  exfalso. apply (head_filter_None (isDue rendered _)) in Hn.
  cbn [AppData.cards] in Hn. apply Forall_app in Hn as [_ Hn].
  destruct delta as [|c delta']; [congruence|].
  apply Forall_cons in Hn as [Hn _]. apply Forall_cons in Hdue as [Hc _]. exact (Hn Hc).
Qed.

Lemma loaded_cards_are_due_witness :
  (forall i, fle (Env.Date_now sampleEnv i) 1704103200000) /\
  exists st delta,
    downloadLanguagePack sampleEnv RU (Some (initialData "2024-01-01" 1704103200000))
    = Some st /\
    AppData.cards st = [] ++ delta /\
    Forall (isDue 1704103200000 st) delta.
Proof.
  assert (H : forall i, fle (Env.Date_now sampleEnv i) 1704103200000)
    by (intros i; reflexivity).
  split; [exact H|].
  destruct (loaded_cards_are_due sampleEnv RU
              (initialData "2024-01-01" 1704103200000) 1704103200000 H)
    as (st & delta & H1 & H2 & H3 & _).
  exists st, delta. auto.
Defined.

(** * The scheduler against the clamp of the specification *)

(** ** The clamp *)

Lemma nan_unique x : is_nan x = true -> x = nan.
Proof.
  intros H. apply Prim2SF_inj. apply F64.is_nan_spec in H. rewrite H. reflexivity.
Qed.

(** On the bounds of the scheduler the composition of [Math.max] and
    [Math.min] is the clamp of the specification, for every number and for
    NaN. *)
Lemma clamp_spec_clamp n : clamp n 1.3 2.8 = spec_clamp n 1.3 2.8.
Proof.
  destruct (is_nan n) eqn:Hn.
  - rewrite (clamp_nan _ Hn). rewrite (nan_unique _ Hn). reflexivity.
  - rewrite clamp_unfold by exact Hn. cbv zeta. unfold spec_clamp.
    destruct (2.8 <? n) eqn:Hhi.
    + change (1.3 <? 2.8) with true. cbv iota.
      rewrite (le_not_lt 1.3 n); [reflexivity|].
      apply F64.le_trans with 2.8; [reflexivity | apply F64.lt_le; exact Hhi].
    + destruct (1.3 <? n) eqn:Hlo.
      * rewrite (le_not_lt 1.3 n) by (apply F64.lt_le; exact Hlo). reflexivity.
      * destruct (n <? 1.3) eqn:Hlt; [reflexivity|].
        symmetry. apply le_not_lt_eq; [exact finite_1_3 | | exact Hlo].
        apply F64.not_lt_le; auto.
Qed.

(** A number that is not below the upper bound is sent to it, a valid one is
    kept. *)
Lemma clamp_raised x :
  fle 1.3 x -> clamp x 1.3 2.8 = (if x <=? 2.8 then x else 2.8).
Proof.
  intros Hlo. destruct (F64.le_not_nan _ _ Hlo) as [_ Hx].
  destruct (x <=? 2.8) eqn:Hle.
  - apply clamp_valid. split; assumption.
  - rewrite clamp_unfold by exact Hx. cbv zeta.
    destruct (2.8 <? x) eqn:Hhi; [reflexivity|].
    assert (H : fle x 2.8) by (apply F64.not_lt_le; auto).
    unfold fle in H. congruence.
Qed.

(** A number that is not above the lower bound is sent to it, a valid one is
    kept. *)
Lemma clamp_lowered x :
  is_nan x = false -> fle x 2.8 ->
  clamp x 1.3 2.8 = (if 1.3 <=? x then x else 1.3).
Proof.
  intros Hx Hhi. destruct (1.3 <=? x) eqn:Hle.
  - apply clamp_valid. split; assumption.
  - rewrite clamp_unfold by exact Hx. cbv zeta.
    rewrite (le_not_lt _ _ Hhi).
    destruct (1.3 <? x) eqn:Hlo; [|reflexivity].
    apply F64.lt_le in Hlo. unfold fle in Hlo. congruence.
Qed.

(** ** Correct reviews *)

(** C1. On a correct review of a well-formed card, [schedule] returns the
    card the specification describes: the ease raised by 0.1 and clamped to
    [1.3, 2.8], the interval 1 for a new card and otherwise the rounded
    product with the new ease, the due date that many days after [now], the
    lapses unchanged and [lastReviewed] set to [now].  The new ease is the
    raised one while that is at most 2.8 and 2.8 otherwise; it is valid and
    not below the old one.  In particular a fresh card with interval 0 and
    ease 2.0 reviewed at 0 gets interval 1, ease 2.1 and due 86400000, and
    reviewed again at 86400000 gets interval 2, ease 2.2 and due
    86400000 + 172800000; a card at ease 2.8 stays at 2.8. *)
Theorem schedule_on_correct_review :
  (forall (c : Card.t) (now : float),
     well_formed c ->
     let c' := schedule now c true in
     correct_review_spec now c c' /\
     Card.ease c' =
       (if Card.ease c + 0.1 <=? 2.8 then Card.ease c + 0.1 else 2.8) /\
     ease_ok (Card.ease c') /\ fle (Card.ease c) (Card.ease c')) /\
  (forall c : Card.t,
     Card.intervalDays c = 0 -> Card.ease c = 2.0 ->
     let c1 := schedule 0 c true in
     let c2 := schedule 86400000 c1 true in
     (Card.intervalDays c1 = 1 /\ Card.ease c1 = 2.1 /\ Card.due c1 = 86400000) /\
     (Card.intervalDays c2 = 2 /\ Card.ease c2 = 2.2 /\
      Card.due c2 = 86400000 + 172800000)) /\
  (forall (c : Card.t) (now : float),
     Card.ease c = 2.8 -> Card.ease (schedule now c true) = 2.8).
Proof.
  split; [|split].
  - intros c now [[Hlo Hhi] _]. cbv zeta.
    assert (Hup : fle (Card.ease c) (Card.ease c + 0.1))
      by (apply F64.add_0_1_ge; assumption).
    assert (Hx : fle 1.3 (Card.ease c + 0.1))
      by (apply F64.le_trans with (Card.ease c); assumption).
    split; [|split; [|split]].
    + unfold correct_review_spec. rewrite <- clamp_spec_clamp.
      repeat split.
    + rewrite schedule_ease. apply clamp_raised. exact Hx.
    + apply schedule_ease_ok. apply (F64.le_not_nan _ _ Hlo).
    + rewrite schedule_ease. apply clamp_ge; [split; assumption | exact Hup].
  - intros c Hi He. cbv zeta. unfold schedule. cbn [Card.intervalDays Card.ease Card.due].
    rewrite Hi, He. vm_compute. repeat split.
  - intros c now He. rewrite schedule_ease, He. reflexivity.
Qed.

Lemma schedule_on_correct_review_witness :
  well_formed freshCard /\
  correct_review_spec 0 freshCard (schedule 0 freshCard true) /\
  Card.ease (schedule 0 freshCard true) = 2.1 /\
  fle (Card.ease freshCard) (Card.ease (schedule 0 freshCard true)).
Proof.
  assert (H : well_formed freshCard) by (split; [split|]; reflexivity).
  destruct (proj1 schedule_on_correct_review freshCard 0 H) as (H1 & H2 & _ & H4).
  split; [exact H|]. split; [exact H1|]. split; [exact H2 | exact H4].
Defined.

(** ** Incorrect reviews *)

(** C2. On an incorrect review [schedule] returns, whatever the card was,
    the ease lowered by 0.2 and clamped to [1.3, 2.8], interval 0, the due
    date 0.1 day (8640000 ms) after [now], one more lapse and
    [lastReviewed] set to [now].  The ease of any card whose ease is a
    number ends within the bounds; for a valid card the new ease is the
    lowered one while that is at least 1.3 and 1.3 otherwise, and it is not
    above the old one.  A card at the lower bound 1.3 stays there, a card at
    ease 2.0 goes to 2.0 - 0.2. *)
Theorem schedule_on_incorrect_review (c : Card.t) (now : float) :
  let c' := schedule now c false in
  incorrect_review_spec now c c' /\
  Card.due c' = now + 8640000 /\
  (Card.ease c = 1.3 -> Card.ease c' = 1.3) /\
  (Card.ease c = 2.0 -> Card.ease c' = 2.0 - 0.2) /\
  (is_nan (Card.ease c) = false -> ease_ok (Card.ease c')) /\
  (ease_ok (Card.ease c) ->
   Card.ease c' =
     (if 1.3 <=? Card.ease c - 0.2 then Card.ease c - 0.2 else 1.3) /\
   fle (Card.ease c') (Card.ease c)).
Proof.
  cbv zeta. split; [|split; [|split; [|split; [|split]]]].
  - unfold incorrect_review_spec. rewrite <- clamp_spec_clamp. repeat split.
  - reflexivity.
  - intros He. rewrite schedule_ease, He. reflexivity.
  - intros He. rewrite schedule_ease, He. reflexivity.
  - apply schedule_ease_ok.
  - intros [Hlo Hhi].
    assert (Hdown : fle (Card.ease c - 0.2) (Card.ease c))
      by (apply sub_0_2_le; assumption).
    rewrite schedule_ease. split.
    + apply clamp_lowered.
      * apply (F64.le_not_nan _ _ Hdown).
      * apply F64.le_trans with (Card.ease c); assumption.
    + apply clamp_le; [split; assumption | exact Hdown].
Qed.

Lemma schedule_on_incorrect_review_witness :
  Card.ease hardCard = 1.3 /\ ease_ok (Card.ease hardCard) /\
  Card.ease (schedule 86400000 hardCard false) = 1.3 /\
  Card.intervalDays (schedule 86400000 hardCard false) = 0 /\
  Card.lapses (schedule 86400000 hardCard false) = Card.lapses hardCard + 1 /\
  fle (Card.ease (schedule 86400000 hardCard false)) (Card.ease hardCard).
Proof.
  assert (Hok : ease_ok (Card.ease hardCard)) by (split; reflexivity).
  destruct (schedule_on_incorrect_review hardCard 86400000)
    as ((_ & Hi & _ & Hl & _) & _ & Hlow & _ & _ & Hval).
  split; [reflexivity|]. split; [exact Hok|]. split; [apply Hlow; reflexivity|].
  split; [exact Hi|]. split; [exact Hl|]. exact (proj2 (Hval Hok)).
Defined.

(** * The scheduler on the object store *)

(** Assignment is observable: a program that assigns to a property of its
    argument leaves another object behind the reference it was given. *)
Lemma assign_changes_object (w : Store.World) (r : positive) (c : Card.t)
    (f : Card.t -> Card.t) :
  Store.heap w !! r = Some c ->
  exists w', Store.assign r f w = Some (tt, w') /\ Store.heap w' !! r = Some (f c).
Proof.
  intros H. unfold Store.assign. rewrite H. eexists. split; [reflexivity|].
  cbn. apply lookup_insert_eq.
Qed.

(** One run of the body of [schedule]: it ends, with a new object that holds
    the card [schedule] computes from the clock reading and the card behind
    the argument, and with every object the store had as it was. *)
Lemma scheduleM_run (w : Store.World) (r : positive) (c : Card.t) (correct : bool) :
  Store.heap w !! r = Some c ->
  let r' := fresh (dom (Store.heap w)) in
  let w' := Store.mk (<[r' := schedule (Store.clock w) c correct]> (Store.heap w))
                     (Store.clock w) in
  scheduleM r correct w = Some (r', w') /\
  Store.heap w !! r' = None /\
  Store.heap w' !! r' = Some (schedule (Store.clock w) c correct) /\
  (forall l, l <> r' -> Store.heap w' !! l = Store.heap w !! l).
Proof.
  intros H. cbv zeta.
  assert (Hf : Store.heap w !! fresh (dom (Store.heap w)) = None)
    by (apply not_elem_of_dom, is_fresh).
  split; [|split; [exact Hf|split]].
  - unfold scheduleM, Store.bind, Store.Date_now, Store.get, Store.new.
    cbv beta iota. repeat (rewrite H; cbv beta iota). reflexivity.
  - cbn. apply lookup_insert_eq.
  - intros l Hl. cbn. apply lookup_insert_ne. congruence.
Qed.

(** C4. [schedule] is total, deterministic and pure.  Called on a reference
    to a card, it returns: the result is a new object that holds a card
    which is a function of the card passed, the flag and the clock reading
    alone, so that a second call with the same card value, the same flag and
    the same reading - in whatever store, through whatever reference -
    returns the same card value; the object passed holds the same card after
    the call, every other object of the store is as it was, and the clock is
    not touched. *)
Theorem schedule_deterministic_pure_total (w1 w2 : Store.World) (r1 r2 : positive)
    (c : Card.t) (correct : bool) :
  Store.heap w1 !! r1 = Some c ->
  Store.heap w2 !! r2 = Some c ->
  Store.clock w2 = Store.clock w1 ->
  exists r1' w1' r2' w2',
    scheduleM r1 correct w1 = Some (r1', w1') /\
    scheduleM r2 correct w2 = Some (r2', w2') /\
    Store.heap w1' !! r1' = Some (schedule (Store.clock w1) c correct) /\
    Store.heap w2' !! r2' = Store.heap w1' !! r1' /\
    Store.heap w1 !! r1' = None /\
    Store.heap w1' !! r1 = Some c /\
    (forall l, l <> r1' -> Store.heap w1' !! l = Store.heap w1 !! l) /\
    Store.clock w1' = Store.clock w1.
Proof.
  intros H1 H2 Hclock.
  destruct (scheduleM_run w1 r1 c correct H1) as (E1 & N1 & V1 & F1).
  destruct (scheduleM_run w2 r2 c correct H2) as (E2 & _ & V2 & _).
  do 4 eexists. split; [exact E1|]. split; [exact E2|].
  split; [exact V1|]. split; [rewrite V1, V2, Hclock; reflexivity|].
  split; [exact N1|]. split; [|split; [exact F1 | reflexivity]].
  rewrite F1; [exact H1|]. intros ->. congruence.
Qed.

Lemma schedule_deterministic_pure_total_witness :
  exists r1' w1' r2' w2',
    scheduleM 1 true (Store.mk {[ 1%positive := freshCard ]} 0) = Some (r1', w1') /\
    scheduleM 2 true (Store.mk {[ 1%positive := hardCard; 2%positive := freshCard ]} 0)
    = Some (r2', w2') /\
    Store.heap w2' !! r2' = Store.heap w1' !! r1' /\
    Store.heap w1' !! 1%positive = Some freshCard.
Proof.
  assert (H1 : Store.heap (Store.mk {[ 1%positive := freshCard ]} 0) !! 1%positive
               = Some freshCard) by (vm_compute; reflexivity).
  assert (H2 : Store.heap
                 (Store.mk {[ 1%positive := hardCard; 2%positive := freshCard ]} 0)
               !! 2%positive = Some freshCard) by (vm_compute; reflexivity).
  destruct (schedule_deterministic_pure_total
              (Store.mk {[ 1%positive := freshCard ]} 0)
              (Store.mk {[ 1%positive := hardCard; 2%positive := freshCard ]} 0)
              1 2 freshCard true H1 H2 eq_refl)
    as (r1' & w1' & r2' & w2' & E1 & E2 & _ & Hsame & _ & Hkept & _).
  exists r1', w1', r2', w2'. auto.
Defined.

(** * The ledger on the object store *)


(** One run of the updater, seen from the state it returns, is
    [recordReview] on the value of [prev], as long as the languages have
    each their own object - which holds of the initial state and of every
    imported one. *)
Lemma updater_recordReview lang today correct updatedCards prev h s' h' :
  (forall l, l <> lang ->
     Ledger.dailyStatsByLang prev l <> Ledger.dailyStatsByLang prev lang) ->
  Ledger.updater lang today correct updatedCards prev h = Some (s', h') ->
  let d' := recordReview lang today correct updatedCards (Ledger.view h prev) in
  AppData.cards (Ledger.view h' s') = AppData.cards d' /\
  AppData.profile (Ledger.view h' s') = AppData.profile d' /\
  AppData.achievements (Ledger.view h' s') = AppData.achievements d' /\
  forall l, AppData.dailyStatsByLang (Ledger.view h' s') l = AppData.dailyStatsByLang d' l.
Proof.
  intros Hsep. unfold Ledger.updater.
  destruct (h !! Ledger.dailyStatsByLang prev lang) as [days|] eqn:E; [|discriminate].
  intros [= <- <-]. cbv zeta. split; [reflexivity|]. split; [reflexivity|].
  split; [reflexivity|]. intros l. cbn.
  destruct (decide (l = lang)) as [->|Hl].
  - rewrite lookup_insert_eq, E. reflexivity.
  - rewrite lookup_insert_ne by (intros E'; apply (Hsep l Hl); congruence).
    reflexivity.
Qed.




(** * Backup export and import *)

(** ** Induction on JSON values *)

Lemma JSON_nested_ind (P : JSON -> Prop)
    (Hnull : P JNull) (Hbool : forall b, P (JBool b))
    (Hnum : forall n, P (JNumber n)) (Hstr : forall s, P (JString s))
    (Harr : forall items, Forall P items -> P (JArray items))
    (Hobj : forall fields, Forall (fun kv => P (snd kv)) fields -> P (JObject fields)) :
  forall v, P v.
Proof.
  exact (fix go (v : JSON) : P v :=
    match v with
    | JNull => Hnull
    | JBool b => Hbool b
    | JNumber n => Hnum n
    | JString s => Hstr s
    | JArray items =>
        Harr items
          ((fix go_items (l : list JSON) : Forall P l :=
              match l with
              | [] => @List.Forall_nil _ P
              | x :: l' => @List.Forall_cons _ P x l' (go x) (go_items l')
              end) items)
    | JObject fields =>
        Hobj fields
          ((fix go_fields (l : list (string * JSON))
              : Forall (fun kv => P (snd kv)) l :=
              match l with
              | [] => @List.Forall_nil _ _
              | (k, x) :: l' =>
                  @List.Forall_cons _ (fun kv => P (snd kv)) (k, x) l' (go x) (go_fields l')
              end) fields)
    end).
Qed.

(** ** Numbers *)

Lemma is_zero_cases n : is_zero n = true -> n = 0 \/ n = neg_zero.
Proof.
  unfold is_zero. rewrite FloatAxioms.eqb_spec.
  change (Prim2SF zero) with (S754_zero false).
  destruct (Prim2SF n) as [s| | |s m e] eqn:E; try discriminate.
  - intros _. destruct s; [right|left]; apply Prim2SF_inj; rewrite E; reflexivity.
  - unfold SFeqb, SFcompare. destruct s; discriminate.
  - unfold SFeqb, SFcompare. destruct s; discriminate.
Qed.

(** The numeral written for an exact number denotes that number. *)
Lemma exact_number_stringify n :
  exact_number n = true ->
  JSON_stringify (JNumber n) = DNumeral n.
Proof.
  unfold exact_number. intros H. apply andb_true_iff in H as [Hfin Hz].
  cbn [JSON_stringify]. rewrite Hfin.
  destruct (is_zero n) eqn:Z; [|reflexivity].
  destruct (is_zero_cases n Z) as [->| ->]; [reflexivity|].
  discriminate Hz.
Qed.

(** ** Objects *)

Lemma set_property_new k v fields :
  k ∉ fst <$> fields -> set_property k v fields = fields ++ [(k, v)].
Proof.
  induction fields as [|[k' v'] fields IH]; intros Hk; [reflexivity|].
  cbn [set_property]. rewrite fmap_cons in Hk. apply not_elem_of_cons in Hk as [Hne Hk].
  destruct (String.eqb k' k) eqn:E.
  - apply String.eqb_eq in E. cbn in Hne. congruence.
  - cbn. rewrite IH by exact Hk. reflexivity.
Qed.

(** Members with distinct keys make the object that has them in their
    order. *)
Lemma fold_set_property (l : list (string * JSON)) : forall acc,
  NoDup (fst <$> (acc ++ l)) ->
  fold_left (fun acc kv => set_property (fst kv) (snd kv) acc) l acc = acc ++ l.
Proof.
  induction l as [|[k v] l IH]; intros acc Hnd.
  - rewrite app_nil_r. reflexivity.
  - cbn [fold_left fst snd].
    assert (Hk : k ∉ fst <$> acc).
    { rewrite fmap_app in Hnd. apply NoDup_app in Hnd as (_ & Hdis & _).
      intros Hin. apply (Hdis k Hin). rewrite fmap_cons. apply list_elem_of_here. }
    rewrite set_property_new by exact Hk.
    rewrite IH by (rewrite <- app_assoc; exact Hnd).
    rewrite <- app_assoc. reflexivity.
Qed.

(** ** The round trip of a value *)

(** [JSON.parse(JSON.stringify(v))] is [v] for every value whose numbers are
    exact. *)
Lemma JSON_round_trip v : JSON_exact v -> JSON_value (JSON_stringify v) = v.
Proof.
  induction v as [| b | n | s | items IH | fields IH] using JSON_nested_ind;
    intros Hv; try reflexivity.
  - inversion Hv as [| |n' Hn| | |]; subst.
    rewrite exact_number_stringify by exact Hn. reflexivity.
  - inversion Hv as [| | | |items' Hall|]; subst.
    cbn [JSON_stringify JSON_value]. f_equal.
    induction items as [|x items IHl]; [reflexivity|].
    apply Forall_cons in IH as [IHx IH]. apply Forall_cons in Hall as [Hx Hall].
    cbn [List.map]. rewrite IHx by exact Hx.
    rewrite IHl; [reflexivity | exact IH | constructor; exact Hall | exact Hall].
  - inversion Hv as [| | | | |fields' Hnd Hall]; subst.
    cbn [JSON_stringify JSON_value]. f_equal.
    assert (E : List.map (fun kv : string * JSONDoc =>
                            match kv with (k, x) => (k, JSON_value x) end)
                  (List.map (fun kv : string * JSON =>
                               match kv with (k, x) => (k, JSON_stringify x) end)
                     fields) = fields).
    { clear Hnd Hv. induction fields as [|[k x] fields IHl]; [reflexivity|].
      apply Forall_cons in IH as [IHx IH]. apply Forall_cons in Hall as [Hx Hall].
      cbn [List.map]. cbn [snd] in IHx, Hx. rewrite IHx by exact Hx.
      rewrite IHl; [reflexivity | exact IH | exact Hall]. }
    rewrite E. apply (fold_set_property fields []). exact Hnd.
Qed.

(** ** The state as a value *)

Ltac distinct_keys := apply (bool_decide_unpack _); vm_compute; exact I.

Lemma optional_exact k (o : option float) :
  valid_optional o -> Forall (fun kv => JSON_exact (snd kv)) (optional k JNumber o).
Proof.
  destruct o as [n|]; intros H; [|constructor].
  constructor; [apply exact_num; exact H | constructor].
Qed.

Lemma optional_string_exact k (o : option string) :
  Forall (fun kv => JSON_exact (snd kv)) (optional k JString o).
Proof. destruct o; repeat constructor. Qed.

Lemma Card_toJS_exact c : valid_Card c -> JSON_exact (Card_toJS c).
Proof.
  intros (Hd & Hi & He & Hl & Hr). unfold Card_toJS. apply exact_obj.
  - destruct (Card.example c), (Card.exampleTranslation c), (Card.lastReviewed c);
      distinct_keys.
  - repeat (apply Forall_app; split).
    + repeat constructor.
    + apply optional_string_exact.
    + apply optional_string_exact.
    + repeat (constructor; [apply exact_num; assumption|]). constructor.
    + apply optional_exact. exact Hr.
Qed.

Lemma DailyStat_toJS_exact s : valid_DailyStat s -> JSON_exact (DailyStat_toJS s).
Proof.
  intros (H1 & H2 & H3 & H4). apply exact_obj; [distinct_keys|].
  repeat (constructor; [apply exact_num; assumption|]). constructor.
Qed.

Lemma Profile_toJS_exact p : valid_Profile p -> JSON_exact (Profile_toJS p).
Proof.
  intros (H1 & H2 & H3 & H4 & H5). apply exact_obj; [distinct_keys|].
  repeat (constructor; [first [apply exact_str | apply exact_num; assumption]|]).
  constructor.
Qed.

Lemma Achievement_toJS_exact a :
  valid_optional (Achievement.unlockedAt a) -> JSON_exact (Achievement_toJS a).
Proof.
  intros H. unfold Achievement_toJS. apply exact_obj.
  - destruct (Achievement.unlockedAt a); distinct_keys.
  - apply Forall_app. split; [repeat constructor | apply optional_exact; exact H].
Qed.

Lemma days_toJS_exact days :
  map_Forall (fun _ s => valid_DailyStat s) days -> JSON_exact (days_toJS days).
Proof.
  intros H. unfold days_toJS. apply exact_obj.
  - rewrite <- list_fmap_compose.
    rewrite (list_fmap_ext _ fst (map_to_list days)) by (intros ? [? ?]; reflexivity).
    apply NoDup_fst_map_to_list.
  - apply Forall_fmap, Forall_forall. intros [k s] Hin. cbn.
    apply DailyStat_toJS_exact. apply (H k s). apply elem_of_map_to_list. exact Hin.
Qed.

Lemma AppData_toJS_exact d : valid_AppData d -> JSON_exact (AppData_toJS d).
Proof.
  intros (Hc & Hp & Ha & Hs). apply exact_obj; [distinct_keys|].
  constructor; [|constructor; [|constructor; [|constructor; [|constructor]]]]; cbn [snd].
  - apply exact_arr, Forall_fmap. eapply Forall_impl; [exact Hc|].
    intros c. apply Card_toJS_exact.
  - apply Profile_toJS_exact. exact Hp.
  - apply exact_arr, Forall_fmap. eapply Forall_impl; [exact Ha|].
    intros a. apply Achievement_toJS_exact.
  - apply exact_obj; [distinct_keys|].
    repeat (constructor; [apply days_toJS_exact, Hs|]). constructor.
Qed.

(** C7. Export followed by import gives the state back.  [JSON.stringify]
    and [JSON.parse] are taken as ECMAScript specifies them.  For every
    valid state - its numbers finite and none of them negative zero -
    parsing the exported text gives the value exported, field for field, and
    [importData] on that text installs it and announces success, whatever
    the state was before; the value has the top-level shape of a backup.
    The same holds of every value whose numbers are exact.  Validity is
    needed: NaN and the infinities come back as [null], negative zero as
    zero. *)
Theorem backup_round_trip (x : AppData.t) (current : JSON) :
  valid_AppData x ->
  JSON_parse (exportData (AppData_toJS x)) = Some (AppData_toJS x) /\
  importData (Some (JSON_parse (exportData (AppData_toJS x)))) current
  = (AppData_toJS x, Some BackupLoaded) /\
  top_level_shape_ok (AppData_toJS x) = true /\
  (forall v, JSON_exact v -> JSON_parse (exportData v) = Some v) /\
  JSON_parse (exportData (JNumber nan)) = Some JNull /\
  JSON_parse (exportData (JNumber infinity)) = Some JNull /\
  JSON_parse (exportData (JNumber neg_infinity)) = Some JNull /\
  JSON_parse (exportData (JNumber neg_zero)) = Some (JNumber 0).
Proof.
  intros Hx.
  assert (E : JSON_parse (exportData (AppData_toJS x)) = Some (AppData_toJS x)).
  { unfold JSON_parse, exportData. f_equal.
    apply JSON_round_trip, AppData_toJS_exact, Hx. }
  split; [exact E|]. split; [rewrite E; reflexivity|]. split; [reflexivity|].
  split; [|repeat split].
  intros v Hv. unfold JSON_parse, exportData. f_equal. apply JSON_round_trip, Hv.
Qed.

Lemma backup_round_trip_witness :
  valid_AppData sampleBackup /\
  JSON_parse (exportData (AppData_toJS sampleBackup)) = Some (AppData_toJS sampleBackup) /\
  importData (Some (JSON_parse (exportData (AppData_toJS sampleBackup)))) priorState
  = (AppData_toJS sampleBackup, Some BackupLoaded).
Proof.
  assert (H : valid_AppData sampleBackup).
  { split; [repeat constructor|]. split; [repeat split|].
    split; [repeat constructor|].
    intros [| | |]; cbn; try apply map_Forall_empty.
    apply map_Forall_singleton. repeat split. }
  destruct (backup_round_trip sampleBackup priorState H) as (H1 & H2 & _).
  split; [exact H|]. split; [exact H1 | exact H2].
Defined.
